(** * Quantum alphanumeric string generators: a shallow embedding

    The development follows the two generator scripts
    [qrng_alphanumeric_pattern.py] and [qrng_alphanumeric_alternate.py].
    The quantum sampling step ([Statevector.sample_counts(shots=1)]) is the
    only source of randomness: it is modelled as a provider of bit strings
    that is threaded through the code as explicit state, together with a
    log of the widths that were requested.  Exceptions are modelled by an
    error monad whose state survives a raise, as Python's side effects do.
    The entropy is computed in an arithmetic that is a parameter, with the
    real numbers and the binary64 floats as instances. *)

From Stdlib Require Import ZArith List String Ascii Bool Arith Lia.
From Stdlib Require Import Reals Lra Permutation.
From Stdlib Require Import Uint63 PrimFloat FloatOps.
Import ListNotations.

(** ** Python values and exceptions *)

Module Py.

(** The Python values an argument of the generators can take, and the
    values they return.  A [bool] is an [int] in Python. *)
Inductive pyval : Type :=
| PyNone
| PyBool (b : bool)
| PyInt (z : Z)
| PyStr (s : string)
| PyList (l : list string).

(** [isinstance(v, int)], with the integer the value denotes. *)
Definition as_int (v : pyval) : option Z :=
  match v with
  | PyBool b => Some (if b then 1%Z else 0%Z)
  | PyInt z => Some z
  | _ => None
  end.

(** [isinstance(v, str)]. *)
Definition as_str (v : pyval) : option string :=
  match v with
  | PyStr s => Some s
  | _ => None
  end.

(** [isinstance(v, bool)]. *)
Definition as_bool (v : pyval) : option bool :=
  match v with
  | PyBool b => Some b
  | _ => None
  end.

(** [v == 1] *)
Definition eq_one (v : pyval) : bool :=
  match as_int v with
  | Some z => (z =? 1)%Z
  | None => false
  end.

(** The exceptions the two generators can raise, with the data their
    messages are formatted from. *)
Inductive pyerror : Type :=
| PatternNotNonEmptyStr (pattern : pyval)
| PatternInvalidChars (pattern : string)
| ShotsNotPositiveInt (shots : pyval)
| ParallelNotBool (parallel : pyval)
| BitLengthMismatch (expected actual bit_index : nat)
| LengthNotPositiveInt
| LengthNotEven
| InvalidLiteral
| RangeTypeError (v : pyval)
| IndexError
| ProviderFailure.

(** A bit string as [sample_counts] yields it: characters '0' and '1',
    most significant first; [true] stands for '1'. *)
Definition bitstring : Type := list bool.

Fixpoint bits_of_string (s : string) : bitstring :=
  match s with
  | EmptyString => []
  | String c r => (if Ascii.eqb c "1" then true else false) :: bits_of_string r
  end.

(** [c.upper()] on an ASCII character.  The generators only compare the
    result with 'D' and 'L', which no character outside ASCII maps to. *)
Definition upper (c : ascii) : ascii :=
  let n := nat_of_ascii c in
  if (97 <=? n) && (n <=? 122) then ascii_of_nat (n - 32) else c.

(** [c.isspace()] on a character of code point below 256. *)
Definition isspace (c : ascii) : bool :=
  let n := nat_of_ascii c in
  ((9 <=? n) && (n <=? 13)) || ((28 <=? n) && (n <=? 32))
  || (n =? 133) || (n =? 160).

Fixpoint lstrip (s : string) : string :=
  match s with
  | EmptyString => EmptyString
  | String c r => if isspace c then lstrip r else s
  end.

Fixpoint rstrip (s : string) : string :=
  match s with
  | EmptyString => EmptyString
  | String c r =>
      match rstrip r with
      | EmptyString => if isspace c then EmptyString else String c EmptyString
      | r' => String c r'
      end
  end.

(** [s.strip()] *)
Definition strip (s : string) : string := rstrip (lstrip s).

(** Truth value of a string: non-empty. *)
Definition truthy (s : string) : bool :=
  match s with
  | EmptyString => false
  | String _ _ => true
  end.

(** [all(p(c) for c in s)] *)
Fixpoint all_chars (p : ascii -> bool) (s : string) : bool :=
  match s with
  | EmptyString => true
  | String c r => p c && all_chars p r
  end.

(** Value of a non-empty bit string read in base 2. *)
Definition bits_value (bits : bitstring) : Z :=
  fold_left (fun acc (b : bool) => (2 * acc + (if b then 1 else 0))%Z) bits 0%Z.

(** [int(bits, 2)]: the empty string is an invalid literal. *)
Definition int_base2 (bits : bitstring) : pyerror + Z :=
  match bits with
  | [] => inl InvalidLiteral
  | _ => inr (bits_value bits)
  end.

(** [s[i]] on a string, with Python's negative indices. *)
Definition getitem (s : string) (i : Z) : pyerror + ascii :=
  let n := Z.of_nat (String.length s) in
  let j := if (i <? 0)%Z then (i + n)%Z else i in
  if (j <? 0)%Z then inl IndexError
  else match String.get (Z.to_nat j) s with
       | Some c => inr c
       | None => inl IndexError
       end.

(** [s[a:b]] on a bit string, for [0 <= a <= b]. *)
Definition slice (s : bitstring) (a b : nat) : bitstring :=
  firstn (b - a) (skipn a s).

(** [string.digits] and [string.ascii_lowercase] *)
Definition digits : string := "0123456789".
Definition letters : string := "abcdefghijklmnopqrstuvwxyz".

End Py.
Import Py.

(** ** The entropy provider and the effect monad *)

(** A provider owns a state and answers a request for [width] qubits with a
    bit string and its next state, or fails. *)
Record Provider : Type := {
  pstate : Type;
  draw : nat -> pstate -> option (bitstring * pstate)
}.

Section Effects.

Variable P : Provider.

(** The world a generator runs in: the provider and the widths requested
    from it so far, oldest first. *)
Record world : Type := {
  prov : pstate P;
  drawn : list nat
}.

Definition M (A : Type) : Type := world -> (pyerror + A) * world.

Definition ret {A : Type} (a : A) : M A := fun w => (inr a, w).

Definition bind {A B : Type} (m : M A) (k : A -> M B) : M B :=
  fun w =>
    match m w with
    | (inl e, w') => (inl e, w')
    | (inr a, w') => k a w'
    end.

(** A computation that can raise but does not touch the provider. *)
Definition lift {A : Type} (r : pyerror + A) : M A := fun w => (r, w).

(** One [sample_counts(shots=1)] on a circuit of [width] qubits. *)
Definition draw_bits (width : nat) : M bitstring :=
  fun w =>
    let w' := {| prov := prov w; drawn := drawn w ++ [width] |} in
    match draw P width (prov w) with
    | Some (bits, p') => (inr bits, {| prov := p'; drawn := drawn w ++ [width] |})
    | None => (inl ProviderFailure, w')
    end.

End Effects.

Arguments ret {P A} a.
Arguments bind {P A B} m k.
Arguments lift {P A} r.
Arguments prov {P} w.
Arguments drawn {P} w.
Arguments Build_world {P} prov drawn.

Declare Scope py_scope.
Delimit Scope py_scope with py.
Notation "x <- c ;; k" := (bind c (fun x => k))
  (at level 61, c at next level, right associativity) : py_scope.

(** What a call leaves behind: the lines it printed (one per caught
    exception), the value it returned, and the world after it. *)
Record outcome (P : Provider) (V : Type) : Type := {
  stdout : list pyerror;
  returned : V;
  after : world P
}.

Arguments stdout {P V} o.
Arguments returned {P V} o.
Arguments after {P V} o.
Arguments Build_outcome {P V} stdout returned after.

(** Exceptions in code that does not reach the provider. *)
Definition ebind {A B : Type} (r : pyerror + A) (k : A -> pyerror + B) : pyerror + B :=
  match r with
  | inl e => inl e
  | inr a => k a
  end.

Notation "x <~ c ;; k" := (ebind c (fun x => k))
  (at level 61, c at next level, right associativity) : py_scope.

Local Open Scope py_scope.

(** ** Bits to symbols

    Both scripts turn a sample into a character with the same two-branch
    conditional; [is_digit] is the condition it tests. *)

(** [int(bits, 2) % 10] *)
Definition digit_index (bits : bitstring) : pyerror + Z :=
  v <~ int_base2 bits ;; inr (v mod 10)%Z.

(** [int(bits, 2) % 26] *)
Definition letter_index (bits : bitstring) : pyerror + Z :=
  v <~ int_base2 bits ;; inr (v mod 26)%Z.

Definition append_symbol (is_digit : bool) (bits : bitstring) (acc : string)
  : pyerror + string :=
  if is_digit then
    num <~ digit_index bits ;;
    c <~ getitem digits num ;;
    inr (acc ++ String c EmptyString)%string
  else
    num <~ letter_index bits ;;
    c <~ getitem letters num ;;
    inr (acc ++ String c EmptyString)%string.

(** ** qrng_alphanumeric_pattern.py *)

Module Pattern.

(** *** calculate_entropy *)

(** The dictionary [char_count], in insertion order. *)
Definition dict : Type := list (ascii * nat).

(** [d.get(c, default)] *)
Fixpoint dict_get (c : ascii) (d : dict) (default : nat) : nat :=
  match d with
  | [] => default
  | (k, v) :: rest => if Ascii.eqb k c then v else dict_get c rest default
  end.

(** [d[c] = v]: an existing key keeps its place, a new one goes last. *)
Fixpoint dict_set (c : ascii) (v : nat) (d : dict) : dict :=
  match d with
  | [] => [(c, v)]
  | (k, v0) :: rest =>
      if Ascii.eqb k c then (k, v) :: rest else (k, v0) :: dict_set c v rest
  end.

(** [d.values()] *)
Definition dict_values (d : dict) : list nat := map snd d.

(** The inner loop [for c in s], on the pair (char_count, total_chars). *)
Fixpoint count_string (s : string) (st : dict * nat) : dict * nat :=
  match s with
  | EmptyString => st
  | String c r =>
      let char_count := dict_set c (dict_get c (fst st) 0 + 1) (fst st) in
      let total_chars := snd st + 1 in
      count_string r (char_count, total_chars)
  end.

(** The outer loop [for s in strings]. *)
Definition count_strings (strings : list string) : dict * nat :=
  fold_left (fun st s => count_string s st) strings ([], 0).

(** The arithmetic the entropy is computed in: the numbers, [0.0], the
    true division [count / total_chars] of two integers, product,
    difference, [math.log2] and the test [p > 0]. *)
Record arithmetic : Type := {
  number : Type;
  zero : number;
  true_div : nat -> nat -> number;
  mul : number -> number -> number;
  sub : number -> number -> number;
  log2 : number -> number;
  positive : number -> bool
}.

Section Entropy.

Variable A : arithmetic.

(** One pass of the loop over [char_count.values()]. *)
Definition entropy_step (total_chars : nat) (entropy : number A) (count : nat)
  : number A :=
  let p := true_div A count total_chars in
  sub A entropy (if positive A p then mul A p (log2 A p) else zero A).

Definition calculate_entropy (strings : list string) : number A :=
  match strings with
  | [] => zero A
  | _ =>
      let st := count_strings strings in
      let char_count := fst st in
      let total_chars := snd st in
      fold_left (entropy_step total_chars) (dict_values char_count) (zero A)
  end.

End Entropy.

(** *** generate_quantum_alphanumeric_string *)

Definition bits_per_digit : nat := 4.
Definition bits_per_letter : nat := 5.

(** [c.upper() == 'D'] *)
Definition is_D (c : ascii) : bool := Ascii.eqb (upper c) "D".

(** [c.upper() in ['D', 'L']] *)
Definition in_DL (c : ascii) : bool :=
  Ascii.eqb (upper c) "D" || Ascii.eqb (upper c) "L".

(** [bits_per_digit if c.upper() == 'D' else bits_per_letter] *)
Definition qubits_for (c : ascii) : nat :=
  if is_D c then bits_per_digit else bits_per_letter.

(** The four input checks, in order; on success the arguments at their
    Python types. *)
Definition validate (pattern shots parallel : pyval)
  : pyerror + (string * Z * bool) :=
  match as_str pattern with
  | None => inl (PatternNotNonEmptyStr pattern)
  | Some p =>
      if negb (truthy (strip p)) then inl (PatternNotNonEmptyStr pattern)
      else if negb (all_chars in_DL p) then inl (PatternInvalidChars p)
      else
        match as_int shots with
        | None => inl (ShotsNotPositiveInt shots)
        | Some n =>
            if (n <=? 0)%Z then inl (ShotsNotPositiveInt shots)
            else
              match as_bool parallel with
              | None => inl (ParallelNotBool parallel)
              | Some par => inr (p, n, par)
              end
        end
  end.

(** [sum(... for c in pattern)] *)
Fixpoint total_qubits (pattern : string) : nat :=
  match pattern with
  | EmptyString => 0
  | String c r => qubits_for c + total_qubits r
  end.

(** The loop [for char_type in pattern] of the parallel branch, slicing
    one sample. *)
Fixpoint slice_pattern (pattern : string) (sample : bitstring)
         (bit_index : nat) (alphanumeric : string) : pyerror + string :=
  match pattern with
  | EmptyString => inr alphanumeric
  | String char_type rest =>
      let qubits := qubits_for char_type in
      let bits := slice sample bit_index (bit_index + qubits) in
      if negb (List.length bits =? qubits)
      then inl (BitLengthMismatch qubits (List.length bits) bit_index)
      else
        a <~ append_symbol (is_D char_type) bits alphanumeric ;;
        slice_pattern rest sample (bit_index + qubits) a
  end.

(** The loop [for sample in samples]. *)
Fixpoint parallel_results (samples : list bitstring) (pattern : string)
         (results : list string) : pyerror + list string :=
  match samples with
  | [] => inr results
  | sample :: rest =>
      a <~ slice_pattern pattern sample 0 EmptyString ;;
      parallel_results rest pattern (results ++ [a])
  end.

Section Generator.

Variable A : arithmetic.
Variable P : Provider.

(** [samples = [state.sample_counts(shots=1) for state in states]]:
    one draw of [width] qubits per circuit, in order. *)
Fixpoint sample_states (shots : nat) (width : nat) : M P (list bitstring) :=
  match shots with
  | O => ret []
  | S k =>
      sample <- draw_bits P width ;;
      rest <- sample_states k width ;;
      ret (sample :: rest)
  end.

(** The loop [for char_type in pattern] of the sequential branch. *)
Fixpoint sequential_string (pattern : string) (alphanumeric : string)
  : M P string :=
  match pattern with
  | EmptyString => ret alphanumeric
  | String char_type rest =>
      let num_qubits := qubits_for char_type in
      bits <- draw_bits P num_qubits ;;
      a <- lift (append_symbol (is_D char_type) bits alphanumeric) ;;
      sequential_string rest a
  end.

(** The loop [for _ in range(shots)] of the sequential branch. *)
Fixpoint sequential_results (shots : nat) (pattern : string)
         (results : list string) : M P (list string) :=
  match shots with
  | O => ret results
  | S k =>
      a <- sequential_string pattern EmptyString ;;
      sequential_results k pattern (results ++ [a])
  end.

(** Both branches, from [results = []] to the filled list.  Building the
    circuits and applying their gates asks nothing of the provider; only
    [sample_counts] does. *)
Definition generate_results (pattern : string) (shots : Z) (parallel : bool)
  : M P (list string) :=
  if parallel && (1 <? shots)%Z then
    samples <- sample_states (Z.to_nat shots) (total_qubits pattern) ;;
    lift (parallel_results samples pattern [])
  else
    sequential_results (Z.to_nat shots) pattern [].

(** [results[0] if shots == 1 else results] *)
Definition result_value (shots : pyval) (results : list string)
  : pyerror + pyval :=
  if eq_one shots then
    match results with
    | s :: _ => inr (PyStr s)
    | [] => inl IndexError
    end
  else inr (PyList results).

(** The body of the [try]. *)
Definition body (pattern shots parallel : pyval) : M P (pyval * number A) :=
  args <- lift (validate pattern shots parallel) ;;
  let '(p, n, par) := args in
  results <- generate_results p n par ;;
  let entropy := calculate_entropy A results in
  value <- lift (result_value shots results) ;;
  ret (value, entropy).

(** The function: any exception is caught, printed, and answered with
    [(None, 0.0)]. *)
Definition generate_quantum_alphanumeric_string
           (pattern shots parallel : pyval) (w : world P)
  : outcome P (pyval * number A) :=
  match body pattern shots parallel w with
  | (inr v, w') => {| stdout := []; returned := v; after := w' |}
  | (inl e, w') => {| stdout := [e]; returned := (PyNone, zero A); after := w' |}
  end.

End Generator.

End Pattern.

(** ** qrng_alphanumeric_alternate.py *)

Module Alternate.

Definition digit_qubits : nat := 4.
Definition letter_qubits : nat := 5.

(** The two checks on [length]. *)
Definition validate (length : pyval) : pyerror + Z :=
  match as_int length with
  | None => inl LengthNotPositiveInt
  | Some n =>
      if (n <=? 0)%Z then inl LengthNotPositiveInt
      else if negb (n mod 2 =? 0)%Z then inl LengthNotEven
      else inr n
  end.

(** [range(v)]: the number of iterations, or a [TypeError]. *)
Definition range (v : pyval) : pyerror + nat :=
  match as_int v with
  | Some z => inr (Z.to_nat z)
  | None => inl (RangeTypeError v)
  end.

Section Generator.

Variable P : Provider.

(** The loop [for i in range(length)], with [todo] iterations left
    from index [i]. *)
Fixpoint string_loop (todo : nat) (i : nat) (result : string) : M P string :=
  match todo with
  | O => ret result
  | S k =>
      let is_digit := (i mod 2 =? 0) in
      let n_qubits := if is_digit then digit_qubits else letter_qubits in
      sample <- draw_bits P n_qubits ;;
      r <- lift (append_symbol is_digit sample result) ;;
      string_loop k (S i) r
  end.

(** The loop [for _ in range(shots)]. *)
Fixpoint shots_loop (shots : nat) (length : nat) (results : list string)
  : M P (list string) :=
  match shots with
  | O => ret results
  | S k =>
      result <- string_loop length 0 EmptyString ;;
      shots_loop k length (results ++ [result])
  end.

(** [results[0] if shots == 1 else results] *)
Definition result_value (shots : pyval) (results : list string)
  : pyerror + pyval :=
  if eq_one shots then
    match results with
    | s :: _ => inr (PyStr s)
    | [] => inl IndexError
    end
  else inr (PyList results).

(** The body of the [try]. *)
Definition body (length shots : pyval) : M P pyval :=
  n <- lift (validate length) ;;
  iterations <- lift (range shots) ;;
  results <- shots_loop iterations (Z.to_nat n) [] ;;
  lift (result_value shots results).

(** The function: any exception is caught, printed, and answered with
    [None]. *)
Definition generate_quantum_alphanumeric (length shots : pyval) (w : world P)
  : outcome P pyval :=
  match body length shots w with
  | (inr v, w') => {| stdout := []; returned := v; after := w' |}
  | (inl e, w') => {| stdout := [e]; returned := PyNone; after := w' |}
  end.

End Generator.

End Alternate.

(** ** Arithmetic *)

(** The real numbers, with [log2 x = ln x / ln 2]. *)
Definition Rlog2 (x : R) : R := (ln x / ln 2)%R.

Definition reals : Pattern.arithmetic := {|
  Pattern.number := R;
  Pattern.zero := 0%R;
  Pattern.true_div := fun a b => (INR a / INR b)%R;
  Pattern.mul := Rmult;
  Pattern.sub := Rminus;
  Pattern.log2 := Rlog2;
  Pattern.positive := fun p => if Rlt_dec 0 p then true else false
|}.

(** A count as a binary64 float (exact below 2^53). *)
Definition float_of_count (n : nat) : float :=
  PrimFloat.of_uint63 (Uint63.of_Z (Z.of_nat n)).

(** Python's floats: binary64 with correctly rounded operations, and
    [math.log2] as the platform provides it. *)
Definition binary64 (flog2 : float -> float) : Pattern.arithmetic := {|
  Pattern.number := float;
  Pattern.zero := 0%float;
  Pattern.true_div := fun a b => (float_of_count a / float_of_count b)%float;
  Pattern.mul := PrimFloat.mul;
  Pattern.sub := PrimFloat.sub;
  Pattern.log2 := flog2;
  Pattern.positive := fun p => PrimFloat.ltb 0%float p
|}.

(** [math.log2] where it is exact, on the powers of two; not a number
    elsewhere. *)
Definition log2_of_power_of_two (x : float) : float :=
  let (m, e) := PrimFloat.frshiftexp x in
  if PrimFloat.eqb m 0.5%float
  then (PrimFloat.of_uint63 e
        - PrimFloat.of_uint63 (Uint63.of_Z (FloatOps.shift + 1)))%float
  else PrimFloat.nan.

(** ** Providers used to run the generators *)

(** A stub that plays back a fixed script of answers, whatever width is
    asked for, and fails when the script is over. *)
Definition stub : Provider := {|
  pstate := list bitstring;
  draw := fun _ script =>
            match script with
            | [] => None
            | bits :: rest => Some (bits, rest)
            end
|}.

(** A provider that reads an underlying bit stream from left to right:
    a request for [width] bits takes the next [width] bits. *)
Definition streaming (stream : nat -> bool) : Provider := {|
  pstate := nat;
  draw := fun width offset => Some (map stream (seq offset width), offset + width)
|}.

(** The world before any request. *)
Definition fresh (P : Provider) (p : pstate P) : world P :=
  {| prov := p; drawn := [] |}.

(** ** Vocabulary of the statements *)

(** A pattern the validation accepts: a non-empty string of D and L
    markers, in either case. *)
Definition valid_pattern (p : string) : Prop :=
  p <> EmptyString /\ all_chars Pattern.in_DL p = true.

(** A positive integer, as [isinstance(v, int)] and [v > 0] see it. *)
Definition positive_int (v : pyval) : Prop :=
  exists z, as_int v = Some z /\ (0 < z)%Z.

(** A provider that answers every request, with exactly the width asked. *)
Definition honours_width (P : Provider) : Prop :=
  forall width p,
    exists bits p', draw P width p = Some (bits, p') /\ List.length bits = width.

(** The strings a returned value carries. *)
Definition strings_of (v : pyval) : list string :=
  match v with
  | PyStr s => [s]
  | PyList l => l
  | _ => []
  end.

Definition in_string (c : ascii) (s : string) : Prop :=
  exists i, String.get i s = Some c.

Definition alphabet (is_digit : bool) : string :=
  if is_digit then digits else letters.

Definition modulus (is_digit : bool) : Z :=
  if is_digit then 10%Z else 26%Z.

(** [s] has one character per position of [pattern], each from the
    alphabet of the position's class. *)
Fixpoint conforms (pattern s : string) : Prop :=
  match pattern, s with
  | EmptyString, EmptyString => True
  | String c pr, String x sr =>
      in_string x (alphabet (Pattern.is_D c)) /\ conforms pr sr
  | _, _ => False
  end.

(** From index [i] on, [s] has digits at even and letters at odd indices. *)
Fixpoint alternates (i : nat) (s : string) : Prop :=
  match s with
  | EmptyString => True
  | String x sr => in_string x (alphabet (i mod 2 =? 0)) /\ alternates (S i) sr
  end.

(** The widths the positions of a pattern ask for. *)
Fixpoint widths (pattern : string) : list nat :=
  match pattern with
  | EmptyString => []
  | String c r => Pattern.qubits_for c :: widths r
  end.

(** The slices the parallel branch cuts out of one sample, in order. *)
Fixpoint slices (pattern : string) (sample : bitstring) (bit_index : nat)
  : list bitstring :=
  match pattern with
  | EmptyString => []
  | String c r =>
      slice sample bit_index (bit_index + Pattern.qubits_for c)
      :: slices r sample (bit_index + Pattern.qubits_for c)
  end.

(** The widths a successful run of the pattern form requests, in order. *)
Definition requests (p : string) (n : Z) (par : bool) : list nat :=
  if par && (1 <? n)%Z
  then repeat (Pattern.total_qubits p) (Z.to_nat n)
  else List.concat (repeat (widths p) (Z.to_nat n)).

(** Feeding one sample per position to the mapper, as both branches do. *)
Fixpoint map_samples (pattern : string) (samples : list bitstring) (acc : string)
  : pyerror + string :=
  match pattern, samples with
  | String c r, bits :: rest =>
      a <~ append_symbol (Pattern.is_D c) bits acc ;; map_samples r rest a
  | _, _ => inr acc
  end.

(** All bit strings of a given width. *)
Fixpoint all_bitstrings (width : nat) : list bitstring :=
  match width with
  | O => [[]]
  | S k => map (cons false) (all_bitstrings k) ++ map (cons true) (all_bitstrings k)
  end.

(** How many of the 4-bit samples the digit mapper sends to index [i]. *)
Definition digit_hits (i : Z) : nat :=
  List.length
    (filter (fun bits => match digit_index bits with
                         | inr j => (j =? i)%Z
                         | inl _ => false
                         end)
            (all_bitstrings 4)).

(** The entropy as the specification words it: over the characters of all
    strings, the sum over the distinct ones of [- p * log2 p]. *)
Definition flatten (strings : list string) : list ascii :=
  flat_map list_ascii_of_string strings.

Definition probability (chars : list ascii) (c : ascii) : R :=
  (INR (count_occ ascii_dec chars c) / INR (List.length chars))%R.

Fixpoint Rsum (l : list R) : R :=
  match l with
  | [] => 0%R
  | x :: r => (x + Rsum r)%R
  end.

Definition shannon_entropy (strings : list string) : R :=
  let chars := flatten strings in
  Rsum (map (fun c => (- (probability chars c * Rlog2 (probability chars c)))%R)
            (nodup ascii_dec chars)).

(** A length the convenience form accepts: a positive even integer. *)
Definition valid_length (v : pyval) : Prop :=
  exists n, as_int v = Some n /\ (0 < n)%Z /\ (n mod 2 = 0)%Z.

(** A string of the convenience form: [length] characters, digits at even
    and letters at odd indices. *)
Definition alternating (length : nat) (s : string) : Prop :=
  String.length s = length /\ alternates 0 s.

(** The frequency table after the characters [chars] went through the
    update of the counting loop, starting from [d]. *)
Definition tally (chars : list ascii) (d : Pattern.dict) : Pattern.dict :=
  fold_left (fun d c => Pattern.dict_set c (Pattern.dict_get c d 0 + 1) d) chars d.

(** [d.keys()] *)
Definition dict_keys (d : Pattern.dict) : list ascii := map fst d.

(** The term one distinct character with [count] occurrences contributes
    to the entropy of [total] characters. *)
Definition entropy_term (total count : nat) : R :=
  let p := (INR count / INR total)%R in
  (if Rlt_dec 0 p then p * Rlog2 p else 0)%R.

(** Two patterns that differ at most in the case of their markers. *)
Fixpoint same_markers (p q : string) : Prop :=
  match p, q with
  | EmptyString, EmptyString => True
  | String a p', String b q' => upper a = upper b /\ same_markers p' q'
  | _, _ => False
  end.

(** [l] is an initial part of [m]. *)
Definition is_prefix (l m : list nat) : Prop := exists r, m = l ++ r.

(** The strings sequential mode makes of a script of samples: one sample
    per position, string after string, whatever the samples' widths. *)
Fixpoint strings_from_script (pattern : string) (shots : nat)
         (script : list bitstring) : list (pyerror + string) :=
  match shots with
  | O => []
  | S k =>
      map_samples pattern (firstn (String.length pattern) script) EmptyString
      :: strings_from_script pattern k (skipn (String.length pattern) script)
  end.

(** The pattern the convenience form follows from index [i] on, for
    [todo] positions: D at even and L at odd indices. *)
Fixpoint alternating_pattern (i todo : nat) : string :=
  match todo with
  | O => EmptyString
  | S k => String (if i mod 2 =? 0 then "D"%char else "L"%char)
                  (alternating_pattern (S i) k)
  end.

(** The number of distinct characters of a batch. *)
Definition distinct_chars (strings : list string) : nat :=
  List.length (nodup ascii_dec (flatten strings)).

(** How many of the 5-bit samples the letter mapper sends to index [i]. *)
Definition letter_hits (i : Z) : nat :=
  List.length
    (filter (fun bits => match letter_index bits with
                         | inr j => (j =? i)%Z
                         | inl _ => false
                         end)
            (all_bitstrings 5)).

(** [alphabet[int(bits, base 2) mod alphabet_size]], the character a
    sample stands for in a class. *)
Definition mapped (is_digit : bool) (bits : bitstring) : option ascii :=
  String.get (Z.to_nat (bits_value bits mod modulus is_digit)) (alphabet is_digit).

(** The bit index at which position [i] of a pattern starts in a combined
    sample: the widths of the positions before it. *)
Fixpoint offset (pattern : string) (i : nat) : nat :=
  match i, pattern with
  | S j, String c r => Pattern.qubits_for c + offset r j
  | _, _ => 0
  end.

(** What a provider answers to a sequence of requests, from state [p0] on,
    up to its first failure; and the state it is in afterwards. *)
Fixpoint answers (P : Provider) (requested : list nat) (p0 : pstate P)
  : list bitstring :=
  match requested with
  | [] => []
  | width :: rest =>
      match draw P width p0 with
      | Some (bits, p1) => bits :: answers P rest p1
      | None => []
      end
  end.

Fixpoint provider_after (P : Provider) (requested : list nat) (p0 : pstate P)
  : pstate P :=
  match requested with
  | [] => p0
  | width :: rest =>
      match draw P width p0 with
      | Some (_, p1) => provider_after P rest p1
      | None => p0
      end
  end.

(** The bit sample of position [i] (of class marker [c]) of string number
    [k], among the provider's answers: in sequential mode the answer to the
    request made for that position; in batch mode the slice of the string's
    combined sample that starts at the position's offset. *)
Definition position_sample (p : string) (batch : bool) (samples : list bitstring)
           (k i : nat) (c : ascii) : bitstring :=
  if batch
  then slice (nth k samples []) (offset p i) (offset p i + Pattern.qubits_for c)
  else nth (k * String.length p + i) samples [].

(** * Properties *)

Set Implicit Arguments.

(** ** Strings *)

Lemma append_nil_r (s : string) : (s ++ EmptyString)%string = s.
Proof. induction s as [|c s IH]; simpl; [reflexivity | now rewrite IH]. Qed.

Lemma append_assoc (a b c : string) :
  ((a ++ b) ++ c)%string = (a ++ (b ++ c))%string.
Proof. induction a as [|x a IH]; simpl; [reflexivity | now rewrite IH]. Qed.

Lemma get_some (s : string) :
  forall n, n < String.length s -> exists c, String.get n s = Some c.
Proof.
  induction s as [|x s IH]; simpl; intros n Hn; [lia|].
  destruct n as [|n]; [now exists x|].
  apply IH; lia.
Qed.

(** ** The mapper *)

Lemma getitem_in_range (s : string) (i : Z) :
  (0 <= i < Z.of_nat (String.length s))%Z ->
  exists c, getitem s i = inr c /\ String.get (Z.to_nat i) s = Some c.
Proof.
  intros Hi. unfold getitem.
  destruct (Z.ltb_spec i 0) as [H|H]; [lia|].
  destruct (Z.ltb_spec i 0) as [H'|_]; [lia|].
  destruct (@get_some s (Z.to_nat i)) as [c Hc]; [lia|].
  exists c. now rewrite Hc.
Qed.

Lemma append_symbol_formula (is_digit : bool) (bits : bitstring) (acc : string) :
  bits <> [] ->
  exists c,
    String.get (Z.to_nat (bits_value bits mod modulus is_digit)) (alphabet is_digit)
    = Some c
    /\ append_symbol is_digit bits acc = inr (acc ++ String c EmptyString)%string.
Proof.
  intros Hne.
  assert (Hint : int_base2 bits = inr (bits_value bits))
    by (destruct bits; [congruence | reflexivity]).
  destruct is_digit; unfold append_symbol, digit_index, letter_index;
    rewrite Hint; simpl ebind.
  - destruct (@getitem_in_range digits (bits_value bits mod 10)) as [c [Hg Hc]].
    { simpl. pose proof (Z.mod_pos_bound (bits_value bits) 10). lia. }
    exists c. rewrite Hg. simpl. split; [exact Hc | reflexivity].
  - destruct (@getitem_in_range letters (bits_value bits mod 26)) as [c [Hg Hc]].
    { simpl. pose proof (Z.mod_pos_bound (bits_value bits) 26). lia. }
    exists c. rewrite Hg. simpl. split; [exact Hc | reflexivity].
Qed.

Lemma append_symbol_ok (is_digit : bool) (bits : bitstring) (acc : string) :
  bits <> [] ->
  exists c,
    in_string c (alphabet is_digit)
    /\ append_symbol is_digit bits acc = inr (acc ++ String c EmptyString)%string.
Proof.
  intros Hne.
  destruct (append_symbol_formula is_digit acc Hne) as [c [Hc Ha]].
  exists c. split; [eexists; exact Hc | exact Ha].
Qed.

(** ** The effect monad *)

Section MonadFacts.

Variable P : Provider.

Lemma bind_ok {A B : Type} (m : M P A) (k : A -> M P B) (w w' : world P) (a : A) :
  m w = (inr a, w') -> bind m k w = k a w'.
Proof. intros H. unfold bind. now rewrite H. Qed.

Lemma bind_err {A B : Type} (m : M P A) (k : A -> M P B) (w w' : world P) (e : pyerror) :
  m w = (inl e, w') -> bind m k w = (inl e, w').
Proof. intros H. unfold bind. now rewrite H. Qed.

Lemma bind_lift_ok {A B : Type} (a : A) (k : A -> M P B) (w : world P) :
  bind (lift (inr a)) k w = k a w.
Proof. reflexivity. Qed.

Lemma bind_lift_err {A B : Type} (e : pyerror) (k : A -> M P B) (w : world P) :
  bind (lift (inl e)) k w = (inl e, w).
Proof. reflexivity. Qed.

Lemma draw_bits_ok (HP : honours_width P) (width : nat) (w : world P) :
  exists bits p',
    draw_bits P width w
    = (inr bits, {| prov := p'; drawn := drawn w ++ [width] |})
    /\ List.length bits = width.
Proof.
  destruct (HP width (prov w)) as [bits [p' [Hd Hl]]].
  exists bits, p'. unfold draw_bits. rewrite Hd. now split.
Qed.

End MonadFacts.

Arguments bind_ok {P A B m k w w' a} _.
Arguments bind_err {P A B m k w w' e} _.

(** ** Conformance to a pattern *)

Lemma conforms_length (pattern : string) :
  forall s, conforms pattern s -> String.length s = String.length pattern.
Proof.
  induction pattern as [|c pr IH]; intros [|x sr]; simpl; try tauto.
  intros [_ H]. now rewrite (IH sr H).
Qed.

Lemma conforms_get (pattern : string) :
  forall s i c x,
    conforms pattern s ->
    String.get i pattern = Some c -> String.get i s = Some x ->
    in_string x (alphabet (Pattern.is_D c)).
Proof.
  induction pattern as [|c0 pr IH]; intros [|x0 sr] i c x; simpl; try tauto;
    try discriminate.
  intros [Hx Hr]. destruct i as [|i].
  - intros Hc Hs. injection Hc as <-. injection Hs as <-. exact Hx.
  - intros Hc Hs. exact (IH sr i c x Hr Hc Hs).
Qed.

Lemma alternates_length_get (s : string) :
  forall i j x,
    alternates i s -> String.get j s = Some x ->
    in_string x (alphabet ((i + j) mod 2 =? 0)).
Proof.
  induction s as [|x0 sr IH]; intros i j x; simpl; try discriminate.
  intros [Hx Hr]. destruct j as [|j].
  - intros Hs. injection Hs as <-. now rewrite Nat.add_0_r.
  - intros Hs. replace (i + S j) with (S i + j) by lia. exact (IH (S i) j x Hr Hs).
Qed.

Lemma qubits_for_pos (c : ascii) : 0 < Pattern.qubits_for c.
Proof.
  unfold Pattern.qubits_for, Pattern.bits_per_digit, Pattern.bits_per_letter.
  destruct (Pattern.is_D c); lia.
Qed.

Lemma length_pos_nonempty (bits : bitstring) : 0 < List.length bits -> bits <> [].
Proof. destruct bits; simpl; [lia | discriminate]. Qed.

(** ** Sequential branch *)

Section Sequential.

Variable P : Provider.
Hypothesis HP : honours_width P.

Lemma sequential_string_ok (pattern : string) :
  forall acc w,
    exists t w',
      Pattern.sequential_string P pattern acc w = (inr (acc ++ t)%string, w')
      /\ conforms pattern t
      /\ drawn w' = drawn w ++ widths pattern.
Proof.
  induction pattern as [|c pr IH]; intros acc w.
  - exists EmptyString, w. simpl. rewrite append_nil_r, app_nil_r.
    repeat split.
  - destruct (draw_bits_ok HP (Pattern.qubits_for c) w) as [bits [p' [Hd Hl]]].
    destruct (@append_symbol_ok (Pattern.is_D c) bits acc) as [x [Hx Ha]].
    { apply length_pos_nonempty. rewrite Hl. apply qubits_for_pos. }
    destruct (IH (acc ++ String x EmptyString)%string
                 {| prov := p'; drawn := drawn w ++ [Pattern.qubits_for c] |})
      as [t [w' [Hr [Hc Hw]]]].
    exists (String x t), w'. cbn [Pattern.sequential_string].
    rewrite (bind_ok Hd), Ha, bind_lift_ok, Hr, append_assoc.
    split; [reflexivity|]. split; [simpl; now split|].
    rewrite Hw. simpl. now rewrite <- app_assoc.
Qed.

Lemma sequential_results_ok (pattern : string) (shots : nat) :
  forall results w,
    exists ts w',
      Pattern.sequential_results P shots pattern results w
      = (inr (results ++ ts), w')
      /\ List.length ts = shots
      /\ Forall (conforms pattern) ts
      /\ drawn w' = drawn w ++ List.concat (repeat (widths pattern) shots).
Proof.
  induction shots as [|k IH]; intros results w.
  - exists [], w. simpl. rewrite !app_nil_r. repeat split. constructor.
  - destruct (sequential_string_ok pattern EmptyString w) as [t [w1 [Hs [Hc Hw]]]].
    simpl in Hs.
    destruct (IH (results ++ [t]) w1) as [ts [w' [Hr [Hl [Hf Hw']]]]].
    exists (t :: ts), w'. cbn [Pattern.sequential_results].
    rewrite (bind_ok Hs), Hr, <- app_assoc.
    split; [reflexivity|]. split; [simpl; now rewrite Hl|].
    split; [now constructor|].
    rewrite Hw', Hw. simpl. now rewrite <- app_assoc.
Qed.

End Sequential.

(** ** Slicing one sample *)

Lemma slice_length (s : bitstring) (a b : nat) :
  List.length (slice s a b) = Nat.min (b - a) (List.length s - a).
Proof. unfold slice. now rewrite length_firstn, length_skipn. Qed.

Lemma slice_full (s : bitstring) (a q : nat) :
  a + q <= List.length s -> List.length (slice s a (a + q)) = q.
Proof. intros H. rewrite slice_length. lia. Qed.

Lemma total_qubits_widths (pattern : string) :
  Pattern.total_qubits pattern = list_sum (widths pattern).
Proof. induction pattern as [|c r IH]; simpl; [reflexivity | now rewrite IH]. Qed.

Lemma slices_widths (pattern : string) (sample : bitstring) :
  forall bit_index,
    bit_index + Pattern.total_qubits pattern <= List.length sample ->
    map (@List.length bool) (slices pattern sample bit_index) = widths pattern.
Proof.
  induction pattern as [|c r IH]; intros bi Hle; simpl in *; [reflexivity|].
  rewrite slice_full by lia. f_equal. apply IH. lia.
Qed.

Lemma slices_concat (pattern : string) (sample : bitstring) :
  forall bit_index,
    bit_index + Pattern.total_qubits pattern <= List.length sample ->
    List.concat (slices pattern sample bit_index)
    = firstn (Pattern.total_qubits pattern) (skipn bit_index sample).
Proof.
  induction pattern as [|c r IH]; intros bi Hle; simpl in *; [reflexivity|].
  rewrite IH by lia. unfold slice.
  replace (bi + Pattern.qubits_for c - bi) with (Pattern.qubits_for c) by lia.
  rewrite <- (firstn_skipn (Pattern.qubits_for c) (skipn bi sample)) at 2.
  rewrite firstn_app, firstn_firstn, length_firstn, length_skipn, skipn_skipn.
  replace (Nat.min (Pattern.qubits_for c + Pattern.total_qubits r)
                   (Pattern.qubits_for c))
    with (Pattern.qubits_for c) by lia.
  replace (Pattern.qubits_for c + Pattern.total_qubits r
           - Nat.min (Pattern.qubits_for c) (List.length sample - bi))
    with (Pattern.total_qubits r) by lia.
  now rewrite (Nat.add_comm (Pattern.qubits_for c) bi).
Qed.

Lemma map_samples_ok (pattern : string) :
  forall samples acc,
    map (@List.length bool) samples = widths pattern ->
    exists t, map_samples pattern samples acc = inr (acc ++ t)%string
              /\ conforms pattern t.
Proof.
  induction pattern as [|c r IH]; intros samples acc Hw.
  - exists EmptyString. simpl. now rewrite append_nil_r.
  - destruct samples as [|bits rest]; simpl in Hw; [discriminate|].
    injection Hw as Hl Hrest.
    destruct (@append_symbol_ok (Pattern.is_D c) bits acc) as [x [Hx Ha]].
    { apply length_pos_nonempty. rewrite Hl. apply qubits_for_pos. }
    destruct (IH rest (acc ++ String x EmptyString)%string Hrest) as [t [Ht Hc]].
    exists (String x t). simpl. rewrite Ha. simpl. rewrite Ht, append_assoc.
    split; [reflexivity | simpl; now split].
Qed.

Lemma slice_pattern_map_samples (pattern : string) (sample : bitstring) :
  forall bit_index acc,
    bit_index + Pattern.total_qubits pattern <= List.length sample ->
    Pattern.slice_pattern pattern sample bit_index acc
    = map_samples pattern (slices pattern sample bit_index) acc.
Proof.
  induction pattern as [|c r IH]; intros bi acc Hle; simpl in *; [reflexivity|].
  rewrite slice_full by lia. rewrite Nat.eqb_refl. simpl negb. cbv iota.
  destruct (append_symbol (Pattern.is_D c) _ acc) as [e|a]; simpl; [reflexivity|].
  apply IH. lia.
Qed.

Lemma slice_pattern_ok (pattern : string) (sample : bitstring) (acc : string) :
  Pattern.total_qubits pattern <= List.length sample ->
  exists t, Pattern.slice_pattern pattern sample 0 acc = inr (acc ++ t)%string
            /\ conforms pattern t.
Proof.
  intros Hle. rewrite slice_pattern_map_samples by (simpl; lia).
  apply map_samples_ok. apply slices_widths. simpl; lia.
Qed.

Lemma parallel_results_ok (pattern : string) (samples : list bitstring) :
  forall results,
    Forall (fun s => Pattern.total_qubits pattern <= List.length s) samples ->
    exists ts,
      Pattern.parallel_results samples pattern results = inr (results ++ ts)
      /\ List.length ts = List.length samples
      /\ Forall (conforms pattern) ts.
Proof.
  induction samples as [|sample rest IH]; intros results Hall.
  - exists []. simpl. rewrite app_nil_r. repeat split. constructor.
  - inversion Hall as [|? ? Hs Hrest]; subst.
    destruct (slice_pattern_ok pattern sample EmptyString Hs) as [t [Ht Hc]].
    simpl in Ht.
    destruct (IH (results ++ [t]) Hrest) as [ts [Hr [Hl Hf]]].
    exists (t :: ts). simpl. rewrite Ht. simpl. rewrite Hr, <- app_assoc.
    split; [reflexivity|]. split; [now rewrite Hl | now constructor].
Qed.

(** ** Parallel branch *)

Section Parallel.

Variable P : Provider.
Hypothesis HP : honours_width P.

Lemma sample_states_ok (width shots : nat) :
  forall w,
    exists samples w',
      Pattern.sample_states P shots width w = (inr samples, w')
      /\ List.length samples = shots
      /\ Forall (fun s => List.length s = width) samples
      /\ drawn w' = drawn w ++ repeat width shots.
Proof.
  induction shots as [|k IH]; intros w.
  - exists [], w. simpl. rewrite app_nil_r. repeat split. constructor.
  - destruct (draw_bits_ok HP width w) as [bits [p' [Hd Hl]]].
    destruct (IH {| prov := p'; drawn := drawn w ++ [width] |})
      as [samples [w' [Hs [Hn [Hf Hw]]]]].
    exists (bits :: samples), w'. cbn [Pattern.sample_states].
    rewrite (bind_ok Hd), (bind_ok Hs). unfold ret.
    split; [reflexivity|]. split; [simpl; now rewrite Hn|].
    split; [now constructor|].
    rewrite Hw. simpl. now rewrite <- app_assoc.
Qed.

End Parallel.

(** ** Validation of the pattern form *)

Lemma in_DL_not_space (c : ascii) : Pattern.in_DL c = true -> isspace c = false.
Proof.
  destruct c as [[] [] [] [] [] [] [] []]; vm_compute; intros H;
    solve [reflexivity | discriminate H].
Qed.

Lemma rstrip_keeps_head (c : ascii) (r : string) :
  isspace c = false -> truthy (rstrip (String c r)) = true.
Proof. intros H. simpl. rewrite H. now destruct (rstrip r). Qed.

Lemma valid_pattern_truthy (p : string) :
  valid_pattern p -> truthy (strip p) = true.
Proof.
  intros [Hne Hall]. destruct p as [|c r]; [congruence|].
  simpl in Hall. apply andb_prop in Hall as [Hc _].
  apply in_DL_not_space in Hc. unfold strip. cbn [lstrip]. rewrite Hc.
  now apply rstrip_keeps_head.
Qed.

Lemma validate_ok (p : string) (shots : pyval) (n : Z) (par : bool) :
  valid_pattern p -> as_int shots = Some n -> (0 < n)%Z ->
  Pattern.validate (PyStr p) shots (PyBool par) = inr (p, n, par).
Proof.
  intros Hv Hs Hn. unfold Pattern.validate. cbn [as_str].
  rewrite (valid_pattern_truthy Hv). destruct Hv as [_ Hall]. rewrite Hall, Hs.
  simpl. destruct (Z.leb_spec n 0); [lia | reflexivity].
Qed.

Lemma validate_bad_pattern (pattern shots parallel : pyval) :
  (forall p, pattern = PyStr p -> ~ valid_pattern p) ->
  Pattern.validate pattern shots parallel = inl (PatternNotNonEmptyStr pattern)
  \/ exists p, pattern = PyStr p
               /\ Pattern.validate pattern shots parallel = inl (PatternInvalidChars p).
Proof.
  intros Hbad. unfold Pattern.validate.
  destruct pattern as [| b | z | p | l]; simpl; auto.
  destruct (truthy (strip p)) eqn:Ht; simpl; auto.
  destruct (all_chars Pattern.in_DL p) eqn:Ha; simpl.
  - exfalso. apply (Hbad p eq_refl). split; [|exact Ha].
    intros ->. discriminate Ht.
  - right. exists p. now split.
Qed.

Lemma validate_bad_shots (p : string) (shots parallel : pyval) :
  valid_pattern p -> ~ positive_int shots ->
  Pattern.validate (PyStr p) shots parallel = inl (ShotsNotPositiveInt shots).
Proof.
  intros Hv Hs. unfold Pattern.validate. cbn [as_str].
  rewrite (valid_pattern_truthy Hv). destruct Hv as [_ Hall]. rewrite Hall.
  simpl. destruct (as_int shots) as [n|] eqn:Hn; [|reflexivity].
  destruct (Z.leb_spec n 0); [reflexivity|].
  exfalso. apply Hs. exists n. split; [exact Hn | lia].
Qed.

(** ** The pattern form as a whole *)

Section PatternForm.

Variable A : Pattern.arithmetic.
Variable P : Provider.
Hypothesis HP : honours_width P.

Lemma generate_results_ok (p : string) (n : Z) (par : bool) (w : world P) :
  exists ts w',
    Pattern.generate_results P p n par w = (inr ts, w')
    /\ List.length ts = Z.to_nat n
    /\ Forall (conforms p) ts
    /\ drawn w' = drawn w ++ requests p n par.
Proof.
  unfold Pattern.generate_results, requests.
  destruct (par && (1 <? n)%Z).
  - destruct (sample_states_ok HP (Pattern.total_qubits p) (Z.to_nat n) w)
      as [samples [w' [Hs [Hl [Hf Hw]]]]].
    destruct (@parallel_results_ok p samples [])
      as [ts [Hr [Hlt Hc]]].
    { eapply Forall_impl; [|exact Hf]. simpl. intros s ->. lia. }
    exists ts, w'. rewrite (bind_ok Hs), Hr. unfold lift.
    repeat split; auto. now rewrite Hlt.
  - destruct (sequential_results_ok HP p (Z.to_nat n) [] w)
      as [ts [w' [Hr [Hl [Hc Hw]]]]].
    exists ts, w'. now repeat split.
Qed.

(** A valid call succeeds, and returns what [result_value] makes of the
    generated strings together with their entropy. *)
Lemma generate_ok (p : string) (shots : pyval) (n : Z) (par : bool) (w : world P) :
  valid_pattern p -> as_int shots = Some n -> (0 < n)%Z ->
  exists ts w',
    Pattern.generate_results P p n par w = (inr ts, w')
    /\ List.length ts = Z.to_nat n
    /\ Forall (conforms p) ts
    /\ drawn w' = drawn w ++ requests p n par
    /\ Pattern.generate_quantum_alphanumeric_string A P (PyStr p) shots (PyBool par) w
       = {| stdout := [];
            returned := ((if (n =? 1)%Z then PyStr (hd EmptyString ts) else PyList ts),
                         Pattern.calculate_entropy A ts);
            after := w' |}.
Proof.
  intros Hv Hs Hn.
  destruct (generate_results_ok p n par w) as [ts [w' [Hr [Hl [Hc Hw]]]]].
  exists ts, w'. repeat split; auto.
  unfold Pattern.generate_quantum_alphanumeric_string, Pattern.body.
  rewrite (validate_ok shots par Hv Hs Hn), bind_lift_ok, (bind_ok Hr).
  unfold Pattern.result_value, eq_one. rewrite Hs.
  destruct (Z.eqb_spec n 1) as [->|Hne]; [|reflexivity].
  destruct ts as [|t ts]; [simpl in Hl; lia | reflexivity].
Qed.

End PatternForm.

(** The three ways a call of the pattern form ends. *)
Lemma generate_of_results (A : Pattern.arithmetic) (P : Provider) (pattern shots parallel : pyval)
      (w w' : world P) (p : string) (n : Z) (par : bool)
      (ts : list string) (v : pyval) :
  Pattern.validate pattern shots parallel = inr (p, n, par) ->
  Pattern.generate_results P p n par w = (inr ts, w') ->
  Pattern.result_value shots ts = inr v ->
  Pattern.generate_quantum_alphanumeric_string A P pattern shots parallel w
  = {| stdout := []; returned := (v, Pattern.calculate_entropy A ts); after := w' |}.
Proof.
  intros Hv Hr Hres.
  unfold Pattern.generate_quantum_alphanumeric_string, Pattern.body.
  now rewrite Hv, bind_lift_ok, (bind_ok Hr), Hres.
Qed.

Lemma generate_of_invalid (A : Pattern.arithmetic) (P : Provider) (pattern shots parallel : pyval)
      (w : world P) (e : pyerror) :
  Pattern.validate pattern shots parallel = inl e ->
  Pattern.generate_quantum_alphanumeric_string A P pattern shots parallel w
  = {| stdout := [e]; returned := (PyNone, Pattern.zero A); after := w |}.
Proof.
  intros Hv.
  unfold Pattern.generate_quantum_alphanumeric_string, Pattern.body.
  now rewrite Hv.
Qed.

Lemma generate_of_failure (A : Pattern.arithmetic) (P : Provider) (pattern shots parallel : pyval)
      (w w' : world P) (p : string) (n : Z) (par : bool) (e : pyerror) :
  Pattern.validate pattern shots parallel = inr (p, n, par) ->
  Pattern.generate_results P p n par w = (inl e, w') ->
  Pattern.generate_quantum_alphanumeric_string A P pattern shots parallel w
  = {| stdout := [e]; returned := (PyNone, Pattern.zero A); after := w' |}.
Proof.
  intros Hv Hr.
  unfold Pattern.generate_quantum_alphanumeric_string, Pattern.body.
  now rewrite Hv, bind_lift_ok, (bind_err Hr).
Qed.

(** ** The convenience form *)

Lemma alt_validate_ok (length : pyval) (n : Z) :
  as_int length = Some n -> (0 < n)%Z -> (n mod 2 = 0)%Z ->
  Alternate.validate length = inr n.
Proof.
  intros Hl Hn He. unfold Alternate.validate. rewrite Hl.
  destruct (Z.leb_spec n 0); [lia|]. rewrite He. reflexivity.
Qed.

Lemma alt_validate_bad (length : pyval) :
  ~ valid_length length ->
  Alternate.validate length = inl LengthNotPositiveInt
  \/ Alternate.validate length = inl LengthNotEven.
Proof.
  intros Hbad. unfold Alternate.validate.
  destruct (as_int length) as [n|] eqn:Hl; [|now left].
  destruct (Z.leb_spec n 0); [now left|].
  destruct (Z.eqb_spec (n mod 2) 0) as [He|Hne]; [|now right].
  exfalso. apply Hbad. exists n. now repeat split.
Qed.

Section ConvenienceForm.

Variable P : Provider.
Hypothesis HP : honours_width P.

Lemma string_loop_ok (todo : nat) :
  forall i acc w,
    exists t w',
      Alternate.string_loop P todo i acc w = (inr (acc ++ t)%string, w')
      /\ String.length t = todo
      /\ alternates i t.
Proof.
  induction todo as [|k IH]; intros i acc w.
  - exists EmptyString, w. simpl. rewrite append_nil_r. repeat split.
  - set (q := if i mod 2 =? 0 then Alternate.digit_qubits
              else Alternate.letter_qubits).
    destruct (draw_bits_ok HP q w) as [bits [p' [Hd Hl]]].
    destruct (@append_symbol_ok (i mod 2 =? 0) bits acc) as [x [Hx Ha]].
    { apply length_pos_nonempty. rewrite Hl. unfold q.
      destruct (i mod 2 =? 0); cbv; lia. }
    destruct (IH (S i) (acc ++ String x EmptyString)%string
                 {| prov := p'; drawn := drawn w ++ [q] |})
      as [t [w' [Hr [Hlen Halt]]]].
    exists (String x t), w'. cbn [Alternate.string_loop]. fold q.
    rewrite (bind_ok Hd), Ha, bind_lift_ok, Hr, append_assoc.
    split; [reflexivity|]. split; [simpl; now rewrite Hlen | simpl; now split].
Qed.

Lemma shots_loop_ok (length shots : nat) :
  forall results w,
    exists ts w',
      Alternate.shots_loop P shots length results w = (inr (results ++ ts), w')
      /\ List.length ts = shots
      /\ Forall (alternating length) ts.
Proof.
  induction shots as [|k IH]; intros results w.
  - exists [], w. simpl. rewrite app_nil_r. repeat split. constructor.
  - destruct (string_loop_ok length 0 EmptyString w) as [t [w1 [Hs [Hlen Halt]]]].
    simpl in Hs.
    destruct (IH (results ++ [t]) w1) as [ts [w' [Hr [Hl Hf]]]].
    exists (t :: ts), w'. cbn [Alternate.shots_loop].
    rewrite (bind_ok Hs), Hr, <- app_assoc.
    split; [reflexivity|]. split; [simpl; now rewrite Hl|].
    constructor; [now split | exact Hf].
Qed.

(** A call with a valid length and an integer shot count succeeds. *)
Lemma alt_generate_ok (length shots : pyval) (n k : Z) (w : world P) :
  as_int length = Some n -> (0 < n)%Z -> (n mod 2 = 0)%Z ->
  as_int shots = Some k ->
  exists ts w',
    List.length ts = Z.to_nat k
    /\ Forall (alternating (Z.to_nat n)) ts
    /\ Alternate.generate_quantum_alphanumeric P length shots w
       = {| stdout := [];
            returned := (if (k =? 1)%Z then PyStr (hd EmptyString ts) else PyList ts);
            after := w' |}.
Proof.
  intros Hl Hn He Hs.
  destruct (shots_loop_ok (Z.to_nat n) (Z.to_nat k) [] w) as [ts [w' [Hr [Hlen Hf]]]].
  exists ts, w'. repeat split; auto.
  unfold Alternate.generate_quantum_alphanumeric, Alternate.body.
  rewrite (alt_validate_ok length Hl Hn He), bind_lift_ok.
  unfold Alternate.range. rewrite Hs, bind_lift_ok, (bind_ok Hr).
  unfold Alternate.result_value, eq_one, lift. rewrite Hs.
  destruct (Z.eqb_spec k 1) as [->|Hne]; [|reflexivity].
  destruct ts as [|t ts]; [simpl in Hlen; lia | reflexivity].
Qed.

End ConvenienceForm.

(** ** Providers *)

Lemma streaming_honours_width (stream : nat -> bool) :
  honours_width (streaming stream).
Proof.
  intros width offset. eexists. eexists. split; [reflexivity|].
  now rewrite length_map, length_seq.
Qed.

(** * The generators' contracts *)

(** C1.  With a provider that honours the requested widths, a valid
    pattern [p] and a shot count [n >= 1], the pattern form succeeds in
    either mode: nothing is printed, the returned value carries exactly [n]
    strings, and each of them has the length of [p]. *)
Theorem C1_batch_size_and_string_length (A : Pattern.arithmetic)
        (P : Provider) (p : string) (n : Z) (par : bool) (w : world P) :
  honours_width P -> valid_pattern p -> (1 <= n)%Z ->
  let o := Pattern.generate_quantum_alphanumeric_string
             A P (PyStr p) (PyInt n) (PyBool par) w in
  stdout o = []
  /\ List.length (strings_of (fst (returned o))) = Z.to_nat n
  /\ Forall (fun s => String.length s = String.length p)
            (strings_of (fst (returned o))).
Proof.
  intros HP Hv Hn.
  destruct (@generate_ok A P HP p (PyInt n) n par w Hv eq_refl)
    as [ts [w' [_ [Hl [Hc [_ Ho]]]]]]; [lia|].
  cbv zeta. rewrite Ho. cbn [stdout returned fst].
  assert (Hlen : Forall (fun s => String.length s = String.length p) ts).
  { eapply Forall_impl; [|exact Hc]. intros s. apply conforms_length. }
  split; [reflexivity|].
  destruct (Z.eqb_spec n 1) as [->|Hne]; cbn [strings_of].
  - destruct ts as [|t [|t' ts]]; simpl in Hl; try lia.
    split; [reflexivity | exact Hlen].
  - split; [exact Hl | exact Hlen].
Qed.

Lemma C1_witness :
  let o := Pattern.generate_quantum_alphanumeric_string
             reals (streaming Nat.odd) (PyStr "DLd") (PyInt 3) (PyBool true)
             (fresh (streaming Nat.odd) 0) in
  stdout o = []
  /\ List.length (strings_of (fst (returned o))) = Z.to_nat 3
  /\ Forall (fun s => String.length s = String.length "DLd")
            (strings_of (fst (returned o))).
Proof.
  apply C1_batch_size_and_string_length.
  - apply streaming_honours_width.
  - split; [discriminate | reflexivity].
  - lia.
Defined.

Lemma even_mod2 (i : nat) : Nat.even i = (i mod 2 =? 0).
Proof.
  destruct (Nat.even i) eqn:He.
  - apply Nat.even_spec in He. destruct He as [k ->].
    now rewrite Nat.mul_comm, Nat.Div0.mod_mul.
  - assert (Ho : Nat.odd i = true) by (unfold Nat.odd; now rewrite He).
    apply Nat.odd_spec in Ho. destruct Ho as [k ->].
    rewrite Nat.add_comm, Nat.mul_comm, Nat.Div0.mod_add. reflexivity.
Qed.

(** C9.  The convenience form, given a positive even length and a positive
    integer shot count, prints nothing and returns strings of that length
    whose even-indexed characters are digits and whose odd-indexed
    characters are lowercase letters; with a length that is odd or not a
    positive integer the call fails: it prints the error and returns None
    without any request to the provider. *)
Theorem C9_alternating_digits_and_letters
        (P : Provider) (length shots : pyval) (n k : Z) (w : world P) :
  honours_width P ->
  let o := Alternate.generate_quantum_alphanumeric P length shots w in
  (as_int length = Some n -> (0 < n)%Z -> (n mod 2 = 0)%Z ->
   as_int shots = Some k -> (0 < k)%Z ->
   stdout o = []
   /\ List.length (strings_of (returned o)) = Z.to_nat k
   /\ Forall (fun s =>
                String.length s = Z.to_nat n
                /\ forall i x, String.get i s = Some x ->
                               in_string x (if Nat.even i then digits else letters))
             (strings_of (returned o)))
  /\ (~ valid_length length ->
      returned o = PyNone
      /\ (stdout o = [LengthNotPositiveInt] \/ stdout o = [LengthNotEven])
      /\ after o = w).
Proof.
  intros HP o. split.
  - intros Hl Hn He Hs Hk.
    destruct (alt_generate_ok HP length shots w Hl Hn He Hs)
      as [ts [w' [Hlen [Hf Ho]]]].
    unfold o. rewrite Ho. cbn [stdout returned].
    assert (Hall : Forall (fun s =>
                String.length s = Z.to_nat n
                /\ forall i x, String.get i s = Some x ->
                               in_string x (if Nat.even i then digits else letters))
             ts).
    { eapply Forall_impl; [|exact Hf]. intros s [Hsl Halt]. split; [exact Hsl|].
      intros i x Hg. rewrite even_mod2.
      exact (alternates_length_get s 0 i Halt Hg). }
    split; [reflexivity|].
    destruct (Z.eqb_spec k 1) as [->|Hne]; cbn [strings_of].
    + destruct ts as [|t [|t' ts]]; simpl in Hlen; try lia.
      split; [reflexivity | exact Hall].
    + split; [exact Hlen | exact Hall].
  - intros Hbad. unfold o, Alternate.generate_quantum_alphanumeric, Alternate.body.
    destruct (alt_validate_bad Hbad) as [Hv|Hv]; rewrite Hv, bind_lift_err;
      cbn [stdout returned after]; repeat split; auto.
Qed.

Lemma C9_witness :
  let o := Alternate.generate_quantum_alphanumeric
             (streaming Nat.odd) (PyInt 4) (PyInt 2) (fresh (streaming Nat.odd) 0) in
  (stdout o = []
   /\ List.length (strings_of (returned o)) = Z.to_nat 2
   /\ Forall (fun s =>
                String.length s = Z.to_nat 4
                /\ forall i x, String.get i s = Some x ->
                               in_string x (if Nat.even i then digits else letters))
             (strings_of (returned o)))
  /\ (let o' := Alternate.generate_quantum_alphanumeric
                  (streaming Nat.odd) (PyInt 3) (PyInt 2)
                  (fresh (streaming Nat.odd) 0) in
      returned o' = PyNone
      /\ (stdout o' = [LengthNotPositiveInt] \/ stdout o' = [LengthNotEven])
      /\ after o' = fresh (streaming Nat.odd) 0).
Proof.
  split.
  - apply (@C9_alternating_digits_and_letters
             (streaming Nat.odd) (PyInt 4) (PyInt 2) 4 2
             (fresh (streaming Nat.odd) 0) (@streaming_honours_width Nat.odd));
      solve [reflexivity | lia].
  - apply (@C9_alternating_digits_and_letters
             (streaming Nat.odd) (PyInt 3) (PyInt 2) 3 2
             (fresh (streaming Nat.odd) 0) (@streaming_honours_width Nat.odd)).
    intros [m [Hm [_ He]]]. simpl in Hm. injection Hm as <-. discriminate He.
Defined.



(** ** Failures *)

Lemma body_value_not_none (A : Pattern.arithmetic) (P : Provider) (pattern shots parallel : pyval)
      (w w' : world P) (v : pyval * Pattern.number A) :
  Pattern.body A P pattern shots parallel w = (inr v, w') -> fst v <> PyNone.
Proof.
  unfold Pattern.body, bind, lift.
  destruct (Pattern.validate pattern shots parallel) as [e|[[p n] par]];
    [discriminate|].
  destruct (Pattern.generate_results P p n par w) as [[e|ts] w1]; [discriminate|].
  unfold Pattern.result_value.
  destruct (eq_one shots); [destruct ts as [|t ts]|]; unfold ret;
    intros H; inversion H; subst; discriminate.
Qed.

Lemma alt_body_value_not_none (P : Provider) (length shots : pyval)
      (w w' : world P) (v : pyval) :
  Alternate.body P length shots w = (inr v, w') -> v <> PyNone.
Proof.
  unfold Alternate.body, bind, lift.
  destruct (Alternate.validate length) as [e|n]; [discriminate|].
  destruct (Alternate.range shots) as [e|k]; [discriminate|].
  destruct (Alternate.shots_loop P k (Z.to_nat n) [] w) as [[e|ts] w1];
    [discriminate|].
  unfold Alternate.result_value.
  destruct (eq_one shots); [destruct ts as [|t ts]|];
    intros H; inversion H; subst; discriminate.
Qed.

(** C4, as the claim states it, fails: an invalid pattern, an invalid shot
    count and a failing provider each end in the same returned value
    [(None, 0.0)], while the error itself only goes to the printed line. *)
Lemma C4_failures_share_one_sentinel :
  let bad_pattern := Pattern.generate_quantum_alphanumeric_string
                       reals stub (PyStr "DXL") (PyInt 1) (PyBool false) (fresh stub []) in
  let bad_shots := Pattern.generate_quantum_alphanumeric_string
                     reals stub (PyStr "D") (PyInt 0) (PyBool false) (fresh stub []) in
  let no_bits := Pattern.generate_quantum_alphanumeric_string
                   reals stub (PyStr "D") (PyInt 1) (PyBool false) (fresh stub []) in
  stdout bad_pattern = [PatternInvalidChars "DXL"]
  /\ stdout bad_shots = [ShotsNotPositiveInt (PyInt 0)]
  /\ stdout no_bits = [ProviderFailure]
  /\ returned bad_pattern = (PyNone, 0%R)
  /\ returned bad_shots = (PyNone, 0%R)
  /\ returned no_bits = (PyNone, 0%R).
Proof.
  cbv zeta.
  rewrite (@generate_of_invalid reals stub (PyStr "DXL") (PyInt 1) (PyBool false)
             (fresh stub []) (PatternInvalidChars "DXL") eq_refl).
  rewrite (@generate_of_invalid reals stub (PyStr "D") (PyInt 0) (PyBool false)
             (fresh stub []) (ShotsNotPositiveInt (PyInt 0)) eq_refl).
  rewrite (@generate_of_failure reals stub (PyStr "D") (PyInt 1) (PyBool false)
             (fresh stub []) (@Build_world stub [] [4]) "D" 1 false
             ProviderFailure eq_refl eq_refl).
  repeat split.
Qed.

(** C4, amended.  Every exception raised in the body of either generator is
    caught: the call prints that error and returns the sentinel, [(None,
    0.0)] for the pattern form and [None] for the convenience form, whatever
    the kind of failure; a call whose body raises nothing prints nothing and
    returns a value that is not [None]. *)
Theorem C4_failures_printed_and_sentinel_returned (A : Pattern.arithmetic)
        (P : Provider) (pattern shots parallel length : pyval) (w : world P) :
  let o := Pattern.generate_quantum_alphanumeric_string A P pattern shots parallel w in
  let a := Alternate.generate_quantum_alphanumeric P length shots w in
  ((exists e w', Pattern.body A P pattern shots parallel w = (inl e, w')
                 /\ stdout o = [e] /\ returned o = (PyNone, Pattern.zero A) /\ after o = w')
   \/ (exists v w', Pattern.body A P pattern shots parallel w = (inr v, w')
                    /\ stdout o = [] /\ returned o = v /\ after o = w'
                    /\ fst v <> PyNone))
  /\ ((exists e w', Alternate.body P length shots w = (inl e, w')
                    /\ stdout a = [e] /\ returned a = PyNone /\ after a = w')
      \/ (exists v w', Alternate.body P length shots w = (inr v, w')
                       /\ stdout a = [] /\ returned a = v /\ after a = w'
                       /\ v <> PyNone)).
Proof.
  cbv zeta. split.
  - unfold Pattern.generate_quantum_alphanumeric_string.
    destruct (Pattern.body A P pattern shots parallel w) as [[e|v] w'] eqn:Hb.
    + left. exists e, w'. now repeat split.
    + right. exists v, w'. repeat split. eapply body_value_not_none; exact Hb.
  - unfold Alternate.generate_quantum_alphanumeric.
    destruct (Alternate.body P length shots w) as [[e|v] w'] eqn:Hb.
    + left. exists e, w'. now repeat split.
    + right. exists v, w'. repeat split. eapply alt_body_value_not_none; exact Hb.
Qed.

(** C5, as the claim states it, fails in sequential mode: a 3-bit sample
    for a Letter position is mapped without any width check. *)
Lemma C5_sequential_maps_short_sample :
  let o := Pattern.generate_quantum_alphanumeric_string
             reals stub (PyStr "L") (PyInt 1) (PyBool false)
             (fresh stub [bits_of_string "101"]) in
  stdout o = [] /\ fst (returned o) = PyStr "f".
Proof.
  cbv zeta.
  rewrite (@generate_of_results reals stub (PyStr "L") (PyInt 1) (PyBool false)
             (fresh stub [bits_of_string "101"]) (@Build_world stub [] [5])
             "L" 1 false ["f"%string] (PyStr "f") eq_refl eq_refl eq_refl).
  split; reflexivity.
Qed.

(** C6, as the claim states it, fails for the convenience form: it does
    not validate the shot count, and a shot count of 0 is answered with an
    empty list instead of a failure. *)
Lemma C6_convenience_form_accepts_zero_shots :
  let o := Alternate.generate_quantum_alphanumeric
             stub (PyInt 2) (PyInt 0) (fresh stub []) in
  ~ positive_int (PyInt 0) /\ stdout o = [] /\ returned o = PyList [].
Proof.
  cbv zeta. split; [|split; reflexivity].
  intros [z [Hz Hpos]]. simpl in Hz. injection Hz as <-. lia.
Qed.

(** C6, amended.  In the pattern form, a pattern that is not a non-empty
    string of D and L markers fails with an invalid-pattern error (so does
    the pattern DXL), and with a valid pattern a shot count that is not a
    positive integer fails with an invalid-shot-count error; in the
    convenience form a length that is not a positive even integer fails.
    Each of these failures happens before any request to the provider:
    the world is left as it was, the error is printed and the sentinel is
    returned, with no partial batch. *)
Theorem C6_validation_fails_before_sampling (A : Pattern.arithmetic)
        (P : Provider) (pattern shots parallel length : pyval) (w : world P) :
  let o := Pattern.generate_quantum_alphanumeric_string A P pattern shots parallel w in
  let a := Alternate.generate_quantum_alphanumeric P length shots w in
  ((forall p, pattern = PyStr p -> ~ valid_pattern p) ->
   (stdout o = [PatternNotNonEmptyStr pattern]
    \/ exists p, pattern = PyStr p /\ stdout o = [PatternInvalidChars p])
   /\ returned o = (PyNone, Pattern.zero A) /\ after o = w)
  /\ ((exists p, pattern = PyStr p /\ valid_pattern p) -> ~ positive_int shots ->
      stdout o = [ShotsNotPositiveInt shots]
      /\ returned o = (PyNone, Pattern.zero A) /\ after o = w)
  /\ (~ valid_length length ->
      (stdout a = [LengthNotPositiveInt] \/ stdout a = [LengthNotEven])
      /\ returned a = PyNone /\ after a = w)
  /\ Pattern.validate (PyStr "DXL") shots parallel = inl (PatternInvalidChars "DXL").
Proof.
  cbv zeta. split; [|split; [|split]].
  - intros Hbad.
    destruct (@validate_bad_pattern pattern shots parallel Hbad) as [Hv|[p [Hp Hv]]];
      rewrite (@generate_of_invalid A P _ _ _ w _ Hv); cbn [stdout returned after].
    + repeat split. now left.
    + repeat split. right. exists p. now split.
  - intros [p [-> Hv]] Hs.
    rewrite (@generate_of_invalid A P _ _ _ w _ (@validate_bad_shots p shots parallel Hv Hs)).
    now repeat split.
  - intros Hbad. unfold Alternate.generate_quantum_alphanumeric, Alternate.body.
    destruct (alt_validate_bad Hbad) as [Hv|Hv]; rewrite Hv, bind_lift_err;
      cbn [stdout returned after]; repeat split; auto.
  - reflexivity.
Qed.

Lemma C6_witness :
  let o := Pattern.generate_quantum_alphanumeric_string
             reals stub (PyStr "DL") (PyInt (-2)) (PyBool true)
             (fresh stub [bits_of_string "0000"]) in
  stdout o = [ShotsNotPositiveInt (PyInt (-2))]
  /\ returned o = (PyNone, 0%R)
  /\ after o = fresh stub [bits_of_string "0000"].
Proof.
  apply (@C6_validation_fails_before_sampling
           reals stub (PyStr "DL") (PyInt (-2)) (PyBool true) PyNone
           (fresh stub [bits_of_string "0000"])).
  - exists "DL"%string. split; [reflexivity | split; [discriminate | reflexivity]].
  - intros [z [Hz Hpos]]. simpl in Hz. injection Hz as <-. lia.
Defined.

(** ** One bit stream, two modes *)

Lemma firstn_seq_le (q : nat) :
  forall start len, q <= len -> firstn q (seq start len) = seq start q.
Proof.
  induction q as [|q IH]; intros start len Hle; [reflexivity|].
  destruct len as [|len]; [lia|]. simpl. f_equal. apply IH. lia.
Qed.

Lemma slice_stream (stream : nat -> bool) (offset total bit_index q : nat) :
  bit_index + q <= total ->
  slice (map stream (seq offset total)) bit_index (bit_index + q)
  = map stream (seq (offset + bit_index) q).
Proof.
  intros Hle. unfold slice.
  replace (bit_index + q - bit_index) with q by lia.
  rewrite skipn_map, firstn_map, skipn_seq, firstn_seq_le by lia.
  reflexivity.
Qed.

Section Streaming.

Variable stream : nat -> bool.

Lemma draw_bits_streaming (width offset : nat) (log : list nat) :
  draw_bits (streaming stream) width (@Build_world (streaming stream) offset log)
  = (inr (map stream (seq offset width)),
     @Build_world (streaming stream) (offset + width) (log ++ [width])).
Proof. reflexivity. Qed.

(** Slicing the combined draw and drawing position by position read the
    same bits. *)
Lemma sequential_string_slices (pattern : string) :
  forall acc offset bit_index log total,
    bit_index + Pattern.total_qubits pattern <= total ->
    exists s,
      Pattern.slice_pattern pattern (map stream (seq offset total)) bit_index acc
      = inr s
      /\ Pattern.sequential_string (streaming stream) pattern acc
           (@Build_world (streaming stream) (offset + bit_index) log)
         = (inr s,
            @Build_world (streaming stream) (offset + bit_index + Pattern.total_qubits pattern)
                         (log ++ widths pattern)).
Proof.
  induction pattern as [|c r IH]; intros acc offset bi log total Hle.
  - exists acc. simpl. rewrite Nat.add_0_r, app_nil_r. now split.
  - simpl in Hle.
    destruct (@append_symbol_ok (Pattern.is_D c)
                (map stream (seq (offset + bi) (Pattern.qubits_for c))) acc)
      as [x [_ Ha]].
    { apply length_pos_nonempty. rewrite length_map, length_seq.
      apply qubits_for_pos. }
    destruct (IH (acc ++ String x EmptyString)%string offset
                 (bi + Pattern.qubits_for c)
                 (log ++ [Pattern.qubits_for c]) total) as [s [Hs Hq]]; [lia|].
    exists s. split.
    + cbn [Pattern.slice_pattern]. rewrite slice_stream by lia.
      rewrite length_map, length_seq, Nat.eqb_refl. cbn [negb].
      rewrite Ha. exact Hs.
    + cbn [Pattern.sequential_string].
      rewrite (bind_ok (draw_bits_streaming (Pattern.qubits_for c)
                                            (offset + bi) log)).
      rewrite Ha, bind_lift_ok.
      rewrite Nat.add_assoc in Hq. rewrite Hq. cbn [widths].
      f_equal. f_equal; [cbn [Pattern.total_qubits]; lia|].
      now rewrite <- app_assoc.
Qed.

(** The two branches fill [results] with the same strings and leave the
    stream at the same place. *)
Lemma branches_agree (pattern : string) (shots : nat) :
  forall results offset log log',
    exists ts samples,
      Pattern.sequential_results (streaming stream) shots pattern results
        (@Build_world (streaming stream) offset log)
      = (inr (results ++ ts),
         @Build_world (streaming stream) (offset + shots * Pattern.total_qubits pattern)
                      (log ++ List.concat (repeat (widths pattern) shots)))
      /\ Pattern.sample_states (streaming stream) shots (Pattern.total_qubits pattern)
           (@Build_world (streaming stream) offset log')
         = (inr samples,
            @Build_world (streaming stream) (offset + shots * Pattern.total_qubits pattern)
                         (log' ++ repeat (Pattern.total_qubits pattern) shots))
      /\ Pattern.parallel_results samples pattern results = inr (results ++ ts)
      /\ List.length ts = shots.
Proof.
  induction shots as [|k IH]; intros results offset log log'.
  - exists [], []. simpl. rewrite Nat.add_0_r, !app_nil_r. now repeat split.
  - destruct (@sequential_string_slices pattern EmptyString offset 0 log
                (Pattern.total_qubits pattern)) as [s [Hs Hq]]; [simpl; lia|].
    rewrite Nat.add_0_r in Hq.
    destruct (IH (results ++ [s]) (offset + Pattern.total_qubits pattern)
                 (log ++ widths pattern)
                 (log' ++ [Pattern.total_qubits pattern]))
      as [ts [samples [Hseq [Hsam [Hpar Hlen]]]]].
    exists (s :: ts),
      (map stream (seq offset (Pattern.total_qubits pattern)) :: samples).
    split; [|split; [|split]].
    + cbn [Pattern.sequential_results]. rewrite (bind_ok Hq), Hseq.
      f_equal; [now rewrite <- app_assoc|].
      f_equal; [lia|]. simpl. now rewrite <- app_assoc.
    + cbn [Pattern.sample_states].
      rewrite (bind_ok (draw_bits_streaming (Pattern.total_qubits pattern)
                                            offset log')).
      rewrite (bind_ok Hsam). unfold ret.
      f_equal. f_equal; [lia|]. simpl. now rewrite <- app_assoc.
    + cbn [Pattern.parallel_results]. rewrite Hs. simpl ebind.
      rewrite Hpar. now rewrite <- app_assoc.
    + simpl. now rewrite Hlen.
Qed.

End Streaming.

Lemma stream_generate_results (stream : nat -> bool) (p : string) (n : Z)
      (offset : nat) :
  exists ts,
    List.length ts = Z.to_nat n
    /\ forall par,
        Pattern.generate_results (streaming stream) p n par
          (fresh (streaming stream) offset)
        = (inr ts,
           @Build_world (streaming stream)
             (offset + Z.to_nat n * Pattern.total_qubits p) (requests p n par)).
Proof.
  destruct (@branches_agree stream p (Z.to_nat n) [] offset [] [])
    as [ts [samples [Hseq [Hsam [Hpar Hlen]]]]].
  simpl in Hseq, Hsam, Hpar.
  exists ts. split; [exact Hlen|].
  intros par. unfold Pattern.generate_results, requests, fresh.
  destruct (par && (1 <? n)%Z).
  - now rewrite (bind_ok Hsam), Hpar.
  - exact Hseq.
Qed.

Lemma list_sum_repeat (x n : nat) : list_sum (repeat x n) = n * x.
Proof. induction n as [|n IH]; simpl; [reflexivity | now rewrite IH]. Qed.

Lemma list_sum_concat_repeat (l : list nat) (n : nat) :
  list_sum (List.concat (repeat l n)) = n * list_sum l.
Proof.
  induction n as [|n IH]; simpl; [reflexivity|].
  now rewrite list_sum_app, IH.
Qed.

Lemma requests_sum (p : string) (n : Z) (par : bool) :
  list_sum (requests p n par) = Z.to_nat n * list_sum (widths p).
Proof.
  unfold requests. destruct (par && (1 <? n)%Z).
  - now rewrite list_sum_repeat, total_qubits_widths.
  - apply list_sum_concat_repeat.
Qed.

Lemma widths_by_class (p : string) :
  widths p
  = map (fun c => if Pattern.is_D c then 4 else 5) (list_ascii_of_string p).
Proof. induction p as [|c r IH]; simpl; [reflexivity | now rewrite IH]. Qed.

(** C7.  For a valid pattern and a shot count [n >= 1], reading one and the
    same bit stream: each mode requests, per generated string, as many bits
    as the per-position widths add up to (4 per Digit position, 5 per
    Letter position), one request per position in sequential mode and one
    combined request per string in batch mode; slicing a combined sample
    cuts it into exactly one slice per position, of that position's width,
    that together make up the sample, and the slices are what is mapped;
    and the two modes return the same value and leave the stream at the
    same place. *)
Theorem C7_modes_agree_on_one_stream (A : Pattern.arithmetic)
        (stream : nat -> bool) (p : string) (n : Z) (offset : nat) :
  valid_pattern p -> (1 <= n)%Z ->
  let P := streaming stream in
  let s := Pattern.generate_quantum_alphanumeric_string
             A P (PyStr p) (PyInt n) (PyBool false) (fresh P offset) in
  let b := Pattern.generate_quantum_alphanumeric_string
             A P (PyStr p) (PyInt n) (PyBool true) (fresh P offset) in
  (widths p = map (fun c => if Pattern.is_D c then 4 else 5) (list_ascii_of_string p)
   /\ Pattern.total_qubits p = list_sum (widths p)
   /\ drawn (after s) = List.concat (repeat (widths p) (Z.to_nat n))
   /\ drawn (after b) = (if (1 <? n)%Z
                         then repeat (Pattern.total_qubits p) (Z.to_nat n)
                         else widths p)
   /\ list_sum (drawn (after s)) = Z.to_nat n * list_sum (widths p)
   /\ list_sum (drawn (after b)) = Z.to_nat n * list_sum (widths p))
  /\ (forall sample acc,
         List.length sample = Pattern.total_qubits p ->
         map (@List.length bool) (slices p sample 0) = widths p
         /\ List.concat (slices p sample 0) = sample
         /\ Pattern.slice_pattern p sample 0 acc
            = map_samples p (slices p sample 0) acc)
  /\ (stdout s = [] /\ stdout b = []
      /\ returned s = returned b
      /\ List.length (strings_of (fst (returned s))) = Z.to_nat n
      /\ prov (after s) = prov (after b)).
Proof.
  intros Hv Hn. cbv zeta.
  destruct (stream_generate_results stream p n offset) as [ts [Hlen Hgen]].
  assert (Hval : forall par,
             Pattern.validate (PyStr p) (PyInt n) (PyBool par) = inr (p, n, par))
    by (intros par; apply validate_ok; [exact Hv | reflexivity | lia]).
  assert (Hres : exists v, Pattern.result_value (PyInt n) ts = inr v
                           /\ strings_of v = ts).
  { unfold Pattern.result_value, eq_one. cbn [as_int].
    destruct (Z.eqb_spec n 1) as [->|Hne].
    - destruct ts as [|t [|t' ts]]; simpl in Hlen; try lia.
      exists (PyStr t). now split.
    - exists (PyList ts). now split. }
  destruct Hres as [v [Hres Hstr]].
  rewrite (@generate_of_results A (streaming stream) _ _ _ _ _ p n false ts v
             (Hval false) (Hgen false) Hres).
  rewrite (@generate_of_results A (streaming stream) _ _ _ _ _ p n true ts v
             (Hval true) (Hgen true) Hres).
  cbn [stdout returned after drawn prov fst].
  assert (Hb : requests p n true
               = if (1 <? n)%Z then repeat (Pattern.total_qubits p) (Z.to_nat n)
                 else widths p).
  { unfold requests. cbn [andb]. destruct (Z.ltb_spec 1 n) as [_|Hle]; [reflexivity|].
    replace n with 1%Z by lia. simpl. now rewrite app_nil_r. }
  split; [|split].
  - split; [apply widths_by_class|]. split; [apply total_qubits_widths|].
    split; [reflexivity|]. split; [exact Hb|].
    split; [apply (requests_sum p n false) | apply (requests_sum p n true)].
  - intros sample acc Hs. split; [|split].
    + apply slices_widths. simpl. lia.
    + rewrite slices_concat by (simpl; lia). simpl skipn.
      rewrite <- Hs. apply firstn_all.
    + apply slice_pattern_map_samples. simpl. lia.
  - rewrite Hstr. now repeat split.
Qed.

Lemma C7_witness :
  let P := streaming Nat.odd in
  let s := Pattern.generate_quantum_alphanumeric_string
             reals P (PyStr "DLd") (PyInt 3) (PyBool false) (fresh P 0) in
  let b := Pattern.generate_quantum_alphanumeric_string
             reals P (PyStr "DLd") (PyInt 3) (PyBool true) (fresh P 0) in
  stdout s = [] /\ stdout b = []
  /\ returned s = returned b
  /\ List.length (strings_of (fst (returned s))) = Z.to_nat 3
  /\ prov (after s) = prov (after b).
Proof.
  apply (@C7_modes_agree_on_one_stream reals Nat.odd "DLd" 3 0).
  - split; [discriminate | reflexivity].
  - lia.
Defined.

(** ** The bias of the digit mapper *)

Lemma four_bit_samples (bits : bitstring) :
  List.length bits = 4 <-> In bits (all_bitstrings 4).
Proof.
  split.
  - destruct bits as [|b1 [|b2 [|b3 [|b4 [|b5 r]]]]]; simpl; try discriminate.
    intros _. destruct b1, b2, b3, b4; tauto.
  - simpl. intuition (subst; reflexivity).
Qed.

Lemma four_bit_samples_distinct : NoDup (all_bitstrings 4).
Proof.
  simpl. repeat (constructor; [simpl; intuition discriminate|]). constructor.
Qed.

(** C8.  Of the 16 four-bit samples, the digit mapper ([int(bits, 2) mod
    10]) sends exactly two to each of the indices 0 to 5 and exactly one to
    each of the indices 6 to 9; so under uniform 4-bit input the former
    have probability 2/16 and the latter 1/16. *)
Theorem C8_digit_mapping_bias (i : Z) :
  (0 <= i <= 9)%Z ->
  List.length (all_bitstrings 4) = 16
  /\ NoDup (all_bitstrings 4)
  /\ (forall bits, List.length bits = 4 <-> In bits (all_bitstrings 4))
  /\ digit_hits i = (if (i <=? 5)%Z then 2 else 1).
Proof.
  intros Hi. split; [reflexivity|].
  split; [exact four_bit_samples_distinct|].
  split; [exact four_bit_samples|].
  assert (H : (i = 0 \/ i = 1 \/ i = 2 \/ i = 3 \/ i = 4 \/ i = 5 \/ i = 6
               \/ i = 7 \/ i = 8 \/ i = 9)%Z) by lia.
  repeat (destruct H as [->|H]; [vm_compute; reflexivity|]).
  subst. vm_compute. reflexivity.
Qed.

Lemma C8_witness :
  List.length (all_bitstrings 4) = 16 /\ digit_hits 7 = 1.
Proof.
  destruct (@C8_digit_mapping_bias 7) as [Hlen [_ [_ Hhits]]]; [lia|].
  split; [exact Hlen | exact Hhits].
Defined.

(** ** The frequency table *)

Lemma dict_get_set_same (c : ascii) (v default : nat) (d : Pattern.dict) :
  Pattern.dict_get c (Pattern.dict_set c v d) default = v.
Proof.
  induction d as [|[k v0] rest IH]; simpl.
  - now rewrite Ascii.eqb_refl.
  - destruct (Ascii.eqb k c) eqn:Hk; simpl; rewrite Hk; [reflexivity | exact IH].
Qed.

Lemma dict_get_set_other (c k : ascii) (v default : nat) (d : Pattern.dict) :
  k <> c ->
  Pattern.dict_get k (Pattern.dict_set c v d) default = Pattern.dict_get k d default.
Proof.
  intros Hne. induction d as [|[k0 v0] rest IH]; simpl.
  - destruct (Ascii.eqb_spec c k); [congruence | reflexivity].
  - destruct (Ascii.eqb_spec k0 c) as [->|Hk0]; simpl.
    + destruct (Ascii.eqb_spec c k); [congruence | reflexivity].
    + destruct (Ascii.eqb_spec k0 k); [reflexivity | exact IH].
Qed.

Lemma dict_keys_set (c : ascii) (v : nat) (d : Pattern.dict) :
  (In c (dict_keys d) /\ dict_keys (Pattern.dict_set c v d) = dict_keys d)
  \/ (~ In c (dict_keys d)
      /\ dict_keys (Pattern.dict_set c v d) = dict_keys d ++ [c]).
Proof.
  induction d as [|[k v0] rest IH]; simpl.
  - right. split; [tauto | reflexivity].
  - destruct (Ascii.eqb_spec k c) as [->|Hk]; simpl.
    + left. split; [now left | reflexivity].
    + destruct IH as [[Hin Heq]|[Hnin Heq]]; unfold dict_keys in *; rewrite Heq.
      * left. split; [now right | reflexivity].
      * right. split; [tauto | reflexivity].
Qed.

Lemma tally_get (chars : list ascii) :
  forall d c,
    Pattern.dict_get c (tally chars d) 0
    = Pattern.dict_get c d 0 + count_occ ascii_dec chars c.
Proof.
  induction chars as [|x chars IH]; intros d c; simpl; [lia|].
  unfold tally in *. simpl. rewrite IH.
  destruct (ascii_dec x c) as [->|Hne].
  - rewrite dict_get_set_same. lia.
  - rewrite dict_get_set_other by congruence. lia.
Qed.

Lemma tally_keys (chars : list ascii) :
  forall d,
    NoDup (dict_keys d) ->
    NoDup (dict_keys (tally chars d))
    /\ forall c, In c (dict_keys (tally chars d)) <-> In c (dict_keys d) \/ In c chars.
Proof.
  induction chars as [|x chars IH]; intros d Hd.
  - simpl. split; [exact Hd | intros c; tauto].
  - unfold tally in *. simpl.
    set (d' := Pattern.dict_set x (Pattern.dict_get x d 0 + 1) d).
    assert (Hd' : NoDup (dict_keys d')
                  /\ forall c, In c (dict_keys d') <-> In c (dict_keys d) \/ x = c).
    { destruct (dict_keys_set x (Pattern.dict_get x d 0 + 1) d)
        as [[Hin Heq]|[Hnin Heq]]; fold d' in Heq; rewrite Heq.
      - split; [exact Hd|]. intros c. split; [tauto|]. intros [H|<-]; assumption.
      - split.
        + apply NoDup_app; [exact Hd | repeat constructor; simpl; tauto |].
          intros a Ha [<-|[]]. contradiction.
        + intros c. rewrite in_app_iff. simpl. tauto. }
    destruct Hd' as [Hnd Hkeys].
    destruct (IH d' Hnd) as [Hnd' Hin']. split; [exact Hnd'|].
    intros c. rewrite Hin', Hkeys. tauto.
Qed.

Lemma dict_values_by_key (d : Pattern.dict) :
  NoDup (dict_keys d) ->
  Pattern.dict_values d = map (fun k => Pattern.dict_get k d 0) (dict_keys d).
Proof.
  unfold Pattern.dict_values.
  induction d as [|[k v] rest IH]; simpl; [reflexivity|].
  intros Hnd. inversion Hnd as [|? ? Hnin Hrest]; subst.
  rewrite Ascii.eqb_refl. f_equal. rewrite (IH Hrest).
  apply map_ext_in. intros a Ha.
  destruct (Ascii.eqb_spec k a) as [->|_]; [contradiction | reflexivity].
Qed.

Lemma count_string_tally (s : string) (st : Pattern.dict * nat) :
  Pattern.count_string s st
  = (tally (list_ascii_of_string s) (fst st), snd st + String.length s).
Proof.
  revert st. induction s as [|c r IH]; intros [d n]; simpl.
  - now rewrite Nat.add_0_r.
  - rewrite IH. simpl. unfold tally. simpl. f_equal. lia.
Qed.

Lemma count_strings_tally (strings : list string) :
  Pattern.count_strings strings
  = (tally (flatten strings) [], List.length (flatten strings)).
Proof.
  unfold Pattern.count_strings.
  assert (H : forall st,
             fold_left (fun st s => Pattern.count_string s st) strings st
             = (tally (flatten strings) (fst st),
                snd st + List.length (flatten strings))).
  { induction strings as [|s rest IH]; intros [d n]; simpl.
    - now rewrite Nat.add_0_r.
    - rewrite IH, count_string_tally. simpl.
      unfold tally. rewrite fold_left_app, length_app.
      f_equal. rewrite <- Nat.add_assoc. f_equal. f_equal.
      clear. induction s as [|c r IHs]; simpl; [reflexivity | now rewrite IHs]. }
  now rewrite H.
Qed.

(** ** The entropy sum *)

Lemma Rsum_permutation (l l' : list R) : Permutation l l' -> Rsum l = Rsum l'.
Proof.
  induction 1 as [|x l l' _ IH|x y l|l l' l'' _ IH1 _ IH2]; simpl.
  - reflexivity.
  - now rewrite IH.
  - lra.
  - now rewrite IH1.
Qed.

Lemma entropy_fold (total : nat) (counts : list nat) :
  forall entropy,
    fold_left (Pattern.entropy_step reals total) counts entropy
    = (entropy + Rsum (map (fun count => - entropy_term total count) counts))%R.
Proof.
  induction counts as [|count rest IH]; intros entropy; simpl.
  - lra.
  - rewrite IH. unfold Pattern.entropy_step, entropy_term.
    cbn [reals Pattern.sub Pattern.positive Pattern.true_div Pattern.mul
         Pattern.log2 Pattern.zero].
    destruct (Rlt_dec 0 (INR count / INR total)); lra.
Qed.

Lemma entropy_term_positive (total count : nat) :
  0 < count -> 0 < total ->
  entropy_term total count
  = (INR count / INR total * Rlog2 (INR count / INR total))%R.
Proof.
  intros Hc Ht. unfold entropy_term. cbv zeta.
  destruct (Rlt_dec 0 (INR count / INR total)) as [_|Hn]; [reflexivity|].
  exfalso. apply Hn. apply Rdiv_lt_0_compat; apply lt_0_INR; assumption.
Qed.

(** The loop over the table computes the sum over the table's keys. *)
Lemma calculate_entropy_by_keys (strings : list string) :
  Pattern.calculate_entropy reals strings
  = Rsum (map (fun c => - entropy_term (List.length (flatten strings))
                          (count_occ ascii_dec (flatten strings) c))%R
              (dict_keys (tally (flatten strings) []))).
Proof.
  destruct strings as [|s rest]; [reflexivity|].
  unfold Pattern.calculate_entropy. rewrite count_strings_tally. cbn [fst snd].
  set (chars := flatten (s :: rest)).
  destruct (@tally_keys chars [] (NoDup_nil _)) as [Hnd _].
  rewrite entropy_fold, (@dict_values_by_key _ Hnd), map_map, Rplus_0_l.
  f_equal. apply map_ext. intros c. now rewrite tally_get.
Qed.

Lemma log2_one : Rlog2 1 = 0%R.
Proof. unfold Rlog2. rewrite ln_1. unfold Rdiv. apply Rmult_0_l. Qed.

Lemma log2_half : Rlog2 (1 / 2) = (- 1)%R.
Proof.
  unfold Rlog2.
  replace (1 / 2)%R with (/ 2)%R by lra.
  rewrite ln_Rinv by lra.
  pose proof ln_lt_2 as H. field. lra.
Qed.

(** C3.  [calculate_entropy] flattens the characters of all strings into a
    frequency table keyed by character (each key holding the number of its
    occurrences) and returns the sum, over the distinct characters, of
    [- p * log2 p] with [p = count / total_chars]; it returns 0 for the
    empty batch, 0 for the batch of the single string aa, and 1 for the
    batch of the single string ab.  The sum formula is stated on the real
    numbers; the three values hold there and, exactly, in binary64
    arithmetic, given that [math.log2] is exact at 1 and at 0.5. *)
Theorem C3_entropy_of_character_frequencies
        (strings : list string) (flog2 : float -> float) :
  (Pattern.count_strings strings
   = (tally (flatten strings) [], List.length (flatten strings))
   /\ forall c, Pattern.dict_get c (tally (flatten strings) []) 0
                = count_occ ascii_dec (flatten strings) c)
  /\ Pattern.calculate_entropy reals strings = shannon_entropy strings
  /\ (Pattern.calculate_entropy reals [] = 0%R
      /\ Pattern.calculate_entropy reals ["aa"%string] = 0%R
      /\ Pattern.calculate_entropy reals ["ab"%string] = 1%R)
  /\ (flog2 1%float = 0%float -> flog2 0.5%float = (-1)%float ->
      Pattern.calculate_entropy (binary64 flog2) [] = 0%float
      /\ Pattern.calculate_entropy (binary64 flog2) ["aa"%string] = 0%float
      /\ Pattern.calculate_entropy (binary64 flog2) ["ab"%string] = 1%float).
Proof.
  split; [split; [apply count_strings_tally | intros c; now rewrite tally_get]|].
  split; [|split; [split; [reflexivity|split]|]].
  - rewrite calculate_entropy_by_keys. unfold shannon_entropy. cbv zeta.
    set (chars := flatten strings).
    destruct (@tally_keys chars [] (NoDup_nil _)) as [Hnd Hin].
    assert (Hperm : Permutation (dict_keys (tally chars [])) (nodup ascii_dec chars)).
    { apply NoDup_Permutation; [exact Hnd | apply NoDup_nodup |].
      intros c. rewrite Hin, nodup_In. simpl. tauto. }
    rewrite (Rsum_permutation (Permutation_map _ Hperm)).
    f_equal. apply map_ext_in. intros c Hc. apply nodup_In in Hc.
    unfold probability. rewrite entropy_term_positive; [reflexivity | |].
    + now apply (count_occ_In ascii_dec).
    + destruct chars; [contradiction | simpl; lia].
  - unfold Pattern.calculate_entropy.
    change (Pattern.count_strings ["aa"%string]) with ([("a"%char, 2)], 2).
    cbn [fst snd Pattern.dict_values map fold_left].
    unfold Pattern.entropy_step.
    cbn [reals Pattern.sub Pattern.positive Pattern.true_div Pattern.mul
         Pattern.log2 Pattern.zero].
    replace (INR 2 / INR 2)%R with 1%R by (simpl; lra).
    rewrite log2_one. destruct (Rlt_dec 0 1); lra.
  - unfold Pattern.calculate_entropy.
    change (Pattern.count_strings ["ab"%string])
      with ([("a"%char, 1); ("b"%char, 1)], 2).
    cbn [fst snd Pattern.dict_values map fold_left].
    unfold Pattern.entropy_step.
    cbn [reals Pattern.sub Pattern.positive Pattern.true_div Pattern.mul
         Pattern.log2 Pattern.zero].
    replace (INR 1 / INR 2)%R with (1 / 2)%R by (simpl; lra).
    rewrite log2_half. destruct (Rlt_dec 0 (1 / 2)); lra.
  - intros H1 Hhalf. split; [reflexivity|]. split.
    + vm_compute. rewrite H1. reflexivity.
    + vm_compute. rewrite Hhalf. reflexivity.
Qed.

Lemma C3_witness :
  Pattern.calculate_entropy (binary64 log2_of_power_of_two) [] = 0%float
  /\ Pattern.calculate_entropy (binary64 log2_of_power_of_two) ["aa"%string] = 0%float
  /\ Pattern.calculate_entropy (binary64 log2_of_power_of_two) ["ab"%string] = 1%float.
Proof.
  apply (@C3_entropy_of_character_frequencies ["ab"%string] log2_of_power_of_two);
    vm_compute; reflexivity.
Defined.

(** * Further properties of the generators *)

(** ** Validation of the pattern form, in full *)

Lemma validate_inr_inv (pattern shots parallel : pyval)
      (p : string) (n : Z) (par : bool) :
  Pattern.validate pattern shots parallel = inr (p, n, par) ->
  pattern = PyStr p /\ valid_pattern p /\ as_int shots = Some n /\ (0 < n)%Z
  /\ parallel = PyBool par.
Proof.
  unfold Pattern.validate.
  destruct pattern as [| b | z | q | l]; simpl; try discriminate.
  destruct (truthy (strip q)) eqn:Ht; simpl; [|discriminate].
  destruct (all_chars Pattern.in_DL q) eqn:Ha; simpl; [|discriminate].
  destruct (as_int shots) as [m|] eqn:Hs; [|discriminate].
  destruct (Z.leb_spec m 0) as [|Hpos]; [discriminate|].
  destruct parallel as [| b | z | s | l]; simpl; try discriminate.
  intros H. injection H as <- <- <-.
  repeat split; auto.
  intros ->. discriminate Ht.
Qed.

(** X1.  The pattern form reaches its sampling code exactly when the
    pattern is a non-empty string of D and L markers, the shot count a
    positive integer and the parallel flag a bool; with a valid pattern and
    shot count, a flag that is not a bool (an int, say) makes the call fail
    with its own error, before any request to the provider. *)
Theorem X1_validation_is_complete
        (A : Pattern.arithmetic) (P : Provider)
        (pattern shots parallel : pyval) (w : world P) :
  (forall p n par,
      Pattern.validate pattern shots parallel = inr (p, n, par)
      <-> pattern = PyStr p /\ valid_pattern p /\ as_int shots = Some n
          /\ (0 < n)%Z /\ parallel = PyBool par)
  /\ ((exists p, pattern = PyStr p /\ valid_pattern p) ->
      positive_int shots -> as_bool parallel = None ->
      let o := Pattern.generate_quantum_alphanumeric_string
                 A P pattern shots parallel w in
      stdout o = [ParallelNotBool parallel]
      /\ returned o = (PyNone, Pattern.zero A)
      /\ after o = w).
Proof.
  split.
  - intros p n par. split; [apply validate_inr_inv|].
    intros [-> [Hv [Hs [Hn ->]]]]. now apply validate_ok.
  - intros [p [-> Hv]] [n [Hs Hn]] Hb. cbv zeta.
    assert (Hval : Pattern.validate (PyStr p) shots parallel
                   = inl (ParallelNotBool parallel)).
    { unfold Pattern.validate. cbn [as_str].
      rewrite (valid_pattern_truthy Hv). destruct Hv as [_ Hall].
      rewrite Hall, Hs. simpl. destruct (Z.leb_spec n 0); [lia|].
      now rewrite Hb. }
    rewrite (@generate_of_invalid A P _ _ _ w _ Hval). now repeat split.
Qed.

Lemma X1_witness :
  let o := Pattern.generate_quantum_alphanumeric_string
             reals stub (PyStr "DL") (PyInt 2) (PyInt 1)
             (fresh stub [bits_of_string "0000"]) in
  stdout o = [ParallelNotBool (PyInt 1)]
  /\ returned o = (PyNone, 0%R)
  /\ after o = fresh stub [bits_of_string "0000"].
Proof.
  apply (@X1_validation_is_complete reals stub (PyStr "DL") (PyInt 2) (PyInt 1)
                                    (fresh stub [bits_of_string "0000"])).
  - exists "DL"%string. split; [reflexivity | split; [discriminate | reflexivity]].
  - exists 2%Z. split; [reflexivity | lia].
  - reflexivity.
Defined.

(** ** Markers in either case *)

Lemma is_D_upper (a b : ascii) : upper a = upper b -> Pattern.is_D a = Pattern.is_D b.
Proof. unfold Pattern.is_D. now intros ->. Qed.

Lemma in_DL_upper (a b : ascii) : upper a = upper b -> Pattern.in_DL a = Pattern.in_DL b.
Proof. unfold Pattern.in_DL. now intros ->. Qed.

Lemma qubits_for_upper (a b : ascii) :
  upper a = upper b -> Pattern.qubits_for a = Pattern.qubits_for b.
Proof. unfold Pattern.qubits_for. intros H. now rewrite (@is_D_upper a b H). Qed.

Lemma same_markers_valid (p : string) :
  forall q, same_markers p q -> valid_pattern p -> valid_pattern q.
Proof.
  assert (Hall : forall p q, same_markers p q ->
                             all_chars Pattern.in_DL p = all_chars Pattern.in_DL q).
  { clear. induction p as [|a p IH]; intros [|b q]; simpl; try tauto.
    intros [Hab Hpq]. now rewrite (@in_DL_upper a b Hab), (IH q Hpq). }
  intros q Hpq [Hne Hp]. split.
  - destruct p, q; simpl in Hpq; try tauto; congruence.
  - now rewrite <- (Hall p q Hpq).
Qed.

Lemma same_markers_total_qubits (p : string) :
  forall q, same_markers p q -> Pattern.total_qubits p = Pattern.total_qubits q.
Proof.
  induction p as [|a p IH]; intros [|b q]; simpl; try tauto.
  intros [Hab Hpq]. now rewrite (@qubits_for_upper a b Hab), (IH q Hpq).
Qed.

Lemma same_markers_slice_pattern (p : string) (sample : bitstring) :
  forall q bit_index acc,
    same_markers p q ->
    Pattern.slice_pattern p sample bit_index acc
    = Pattern.slice_pattern q sample bit_index acc.
Proof.
  induction p as [|a p IH]; intros [|b q] bi acc; simpl; try tauto.
  intros [Hab Hpq].
  rewrite (@qubits_for_upper a b Hab), (@is_D_upper a b Hab).
  destruct (negb _); [reflexivity|].
  destruct (append_symbol _ _ acc) as [e|s]; simpl; [reflexivity|].
  now apply IH.
Qed.

Lemma same_markers_parallel_results (p q : string) (samples : list bitstring) :
  same_markers p q ->
  forall results,
    Pattern.parallel_results samples p results
    = Pattern.parallel_results samples q results.
Proof.
  intros Hpq. induction samples as [|sample rest IH]; intros results; simpl;
    [reflexivity|].
  rewrite (@same_markers_slice_pattern p sample q 0 EmptyString Hpq).
  destruct (Pattern.slice_pattern q sample 0 EmptyString); simpl;
    [reflexivity | apply IH].
Qed.

Lemma same_markers_sequential_string (P : Provider) (p : string) :
  forall q acc w,
    same_markers p q ->
    Pattern.sequential_string P p acc w = Pattern.sequential_string P q acc w.
Proof.
  induction p as [|a p IH]; intros [|b q] acc w; simpl; try tauto.
  intros [Hab Hpq].
  rewrite (@qubits_for_upper a b Hab), (@is_D_upper a b Hab).
  unfold bind. destruct (draw_bits P (Pattern.qubits_for b) w) as [[e|bits] w1];
    [reflexivity|].
  unfold lift. destruct (append_symbol (Pattern.is_D b) bits acc) as [e|s];
    [reflexivity|].
  now apply IH.
Qed.

Lemma same_markers_sequential_results (P : Provider) (p q : string) (shots : nat) :
  same_markers p q ->
  forall results w,
    Pattern.sequential_results P shots p results w
    = Pattern.sequential_results P shots q results w.
Proof.
  intros Hpq. induction shots as [|k IH]; intros results w; simpl; [reflexivity|].
  unfold bind. rewrite (@same_markers_sequential_string P p q EmptyString w Hpq).
  destruct (Pattern.sequential_string P q EmptyString w) as [[e|s] w1];
    [reflexivity | apply IH].
Qed.

Lemma same_markers_generate_results
      (P : Provider) (p q : string) (n : Z) (par : bool) (w : world P) :
  same_markers p q ->
  Pattern.generate_results P p n par w = Pattern.generate_results P q n par w.
Proof.
  intros Hpq. unfold Pattern.generate_results.
  destruct (par && (1 <? n)%Z).
  - rewrite (@same_markers_total_qubits p q Hpq). unfold bind.
    destruct (Pattern.sample_states P (Z.to_nat n) (Pattern.total_qubits q) w)
      as [[e|samples] w1]; [reflexivity|].
    unfold lift. now rewrite (@same_markers_parallel_results p q samples Hpq).
  - now apply same_markers_sequential_results.
Qed.

(** X2.  Markers are case-insensitive throughout: two valid patterns that
    differ only in the case of their markers lead, from the same world and
    with the same other arguments, to the same printed lines, the same
    returned value and the same world afterwards. *)
Theorem X2_markers_are_case_insensitive
        (A : Pattern.arithmetic) (P : Provider) (p q : string)
        (shots parallel : pyval) (w : world P) :
  same_markers p q -> valid_pattern p ->
  Pattern.generate_quantum_alphanumeric_string A P (PyStr p) shots parallel w
  = Pattern.generate_quantum_alphanumeric_string A P (PyStr q) shots parallel w.
Proof.
  intros Hpq Hp.
  pose proof (@same_markers_valid p q Hpq Hp) as Hq.
  unfold Pattern.generate_quantum_alphanumeric_string, Pattern.body,
    Pattern.validate.
  cbn [as_str].
  rewrite (valid_pattern_truthy Hp), (valid_pattern_truthy Hq).
  destruct Hp as [_ Hp], Hq as [_ Hq]. rewrite Hp, Hq. cbn [negb].
  destruct (as_int shots) as [n|]; [|reflexivity].
  destruct (n <=? 0)%Z; [reflexivity|].
  destruct (as_bool parallel) as [par|]; [|reflexivity].
  rewrite !bind_lift_ok.
  unfold bind. rewrite (@same_markers_generate_results P p q n par w Hpq).
  reflexivity.
Qed.

Lemma X2_witness :
  Pattern.generate_quantum_alphanumeric_string
    reals (streaming Nat.odd) (PyStr "DdL") (PyInt 2) (PyBool true)
    (fresh (streaming Nat.odd) 0)
  = Pattern.generate_quantum_alphanumeric_string
      reals (streaming Nat.odd) (PyStr "dDl") (PyInt 2) (PyBool true)
      (fresh (streaming Nat.odd) 0).
Proof.
  apply X2_markers_are_case_insensitive.
  - simpl. repeat split.
  - split; [discriminate | reflexivity].
Defined.

(** ** Samples that are longer than the pattern needs *)

Lemma slice_firstn (s : bitstring) (m a q : nat) :
  a + q <= m -> slice (firstn m s) a (a + q) = slice s a (a + q).
Proof.
  intros Hle. unfold slice.
  rewrite skipn_firstn_comm, firstn_firstn.
  f_equal. lia.
Qed.

Lemma slices_firstn (pattern : string) (sample : bitstring) (m : nat) :
  forall bit_index,
    bit_index + Pattern.total_qubits pattern <= m ->
    slices pattern (firstn m sample) bit_index = slices pattern sample bit_index.
Proof.
  induction pattern as [|c r IH]; intros bi Hle; simpl in *; [reflexivity|].
  rewrite slice_firstn by lia. f_equal. apply IH. lia.
Qed.

Lemma slice_pattern_surplus (pattern : string) (sample : bitstring) (acc : string) :
  Pattern.total_qubits pattern <= List.length sample ->
  Pattern.slice_pattern pattern sample 0 acc
  = Pattern.slice_pattern pattern
      (firstn (Pattern.total_qubits pattern) sample) 0 acc.
Proof.
  intros Hle.
  rewrite !slice_pattern_map_samples; simpl; try lia.
  - now rewrite slices_firstn by (simpl; lia).
  - rewrite length_firstn. lia.
Qed.

Lemma parallel_results_surplus (pattern : string) (samples : list bitstring) :
  Forall (fun s => Pattern.total_qubits pattern <= List.length s) samples ->
  forall results,
    Pattern.parallel_results samples pattern results
    = Pattern.parallel_results
        (map (firstn (Pattern.total_qubits pattern)) samples) pattern results.
Proof.
  induction 1 as [|sample rest Hs _ IH]; intros results; simpl; [reflexivity|].
  rewrite <- (@slice_pattern_surplus pattern sample EmptyString Hs).
  destruct (Pattern.slice_pattern pattern sample 0 EmptyString); simpl;
    [reflexivity | apply IH].
Qed.

(** X3.  In batch mode a sample that is longer than the pattern needs is
    accepted: only its leading bits, as many as the widths add up to, are
    used, and the rest is ignored without any error. *)
Theorem X3_batch_ignores_surplus_bits
        (A : Pattern.arithmetic) (P : Provider) (p : string) (n : Z)
        (w w' : world P) (samples : list bitstring) :
  valid_pattern p -> (1 < n)%Z ->
  Pattern.sample_states P (Z.to_nat n) (Pattern.total_qubits p) w = (inr samples, w') ->
  Forall (fun s => Pattern.total_qubits p <= List.length s) samples ->
  let o := Pattern.generate_quantum_alphanumeric_string
             A P (PyStr p) (PyInt n) (PyBool true) w in
  exists ts,
    Pattern.parallel_results (map (firstn (Pattern.total_qubits p)) samples) p []
    = inr ts
    /\ stdout o = []
    /\ returned o = (PyList ts, Pattern.calculate_entropy A ts)
    /\ after o = w'.
Proof.
  intros Hv Hn Hs Hall.
  destruct (@parallel_results_ok p samples [] Hall) as [ts [Hp [Hl _]]].
  simpl in Hp. exists ts.
  split; [now rewrite <- (@parallel_results_surplus p samples Hall [])|].
  assert (Hr : Pattern.generate_results P p n true w = (inr ts, w')).
  { unfold Pattern.generate_results.
    replace (true && (1 <? n)%Z) with true
      by (symmetry; apply andb_true_intro; split; [reflexivity | now apply Z.ltb_lt]).
    now rewrite (bind_ok Hs), Hp. }
  assert (Hval : Pattern.validate (PyStr p) (PyInt n) (PyBool true)
                 = inr (p, n, true))
    by (apply validate_ok; [exact Hv | reflexivity | lia]).
  assert (Hres : Pattern.result_value (PyInt n) ts = inr (PyList ts)).
  { unfold Pattern.result_value, eq_one. cbn [as_int].
    destruct (Z.eqb_spec n 1); [lia | reflexivity]. }
  cbv zeta.
  rewrite (@generate_of_results A P _ _ _ w w' p n true ts _ Hval Hr Hres).
  now repeat split.
Qed.

Lemma X3_witness :
  let script := [bits_of_string "0011000011"; bits_of_string "100100010111"] in
  let o := Pattern.generate_quantum_alphanumeric_string
             reals stub (PyStr "DL") (PyInt 2) (PyBool true) (fresh stub script) in
  exists ts,
    Pattern.parallel_results (map (firstn (Pattern.total_qubits "DL")) script) "DL" []
    = inr ts
    /\ stdout o = []
    /\ returned o = (PyList ts, Pattern.calculate_entropy reals ts)
    /\ after o = @Build_world stub [] [9; 9].
Proof.
  apply (@X3_batch_ignores_surplus_bits
           reals stub "DL" 2
           (fresh stub [bits_of_string "0011000011"; bits_of_string "100100010111"])
           (@Build_world stub [] [9; 9])
           [bits_of_string "0011000011"; bits_of_string "100100010111"]).
  - split; [discriminate | reflexivity].
  - lia.
  - reflexivity.
  - repeat constructor; simpl; lia.
Defined.

(** ** Any provider: what can go wrong, and what is requested *)

Lemma is_prefix_refl (l : list nat) : is_prefix l l.
Proof. exists []. now rewrite app_nil_r. Qed.

Lemma is_prefix_app (a l m : list nat) : is_prefix l m -> is_prefix (a ++ l) (a ++ m).
Proof. intros [r ->]. exists r. now rewrite app_assoc. Qed.

Lemma is_prefix_weaken (l m r : list nat) : is_prefix l m -> is_prefix l (m ++ r).
Proof. intros [r' ->]. exists (r' ++ r). now rewrite app_assoc. Qed.

Lemma append_symbol_error (is_digit : bool) (bits : bitstring) (acc : string)
      (e : pyerror) :
  append_symbol is_digit bits acc = inl e -> e = InvalidLiteral /\ bits = [].
Proof.
  destruct bits as [|b bits].
  - destruct is_digit; simpl; intros H; injection H as <-; now split.
  - destruct (@append_symbol_ok is_digit (b :: bits) acc) as [c [_ Ha]];
      [discriminate|].
    rewrite Ha. discriminate.
Qed.

Lemma slice_pattern_any (pattern : string) (sample : bitstring) :
  forall bit_index acc,
    match Pattern.slice_pattern pattern sample bit_index acc with
    | inr s => exists t, s = (acc ++ t)%string /\ conforms pattern t
    | inl e => exists expected actual index,
                 e = BitLengthMismatch expected actual index /\ actual < expected
    end.
Proof.
  induction pattern as [|c r IH]; intros bi acc; simpl.
  - exists EmptyString. now rewrite append_nil_r.
  - destruct (Nat.eqb_spec (List.length (slice sample bi (bi + Pattern.qubits_for c)))
                           (Pattern.qubits_for c)) as [Heq|Hne]; simpl negb; cbv iota.
    + destruct (@append_symbol_ok (Pattern.is_D c)
                  (slice sample bi (bi + Pattern.qubits_for c)) acc) as [x [Hx Ha]].
      { apply length_pos_nonempty. rewrite Heq. apply qubits_for_pos. }
      rewrite Ha. simpl.
      specialize (IH (bi + Pattern.qubits_for c) (acc ++ String x EmptyString)%string).
      destruct (Pattern.slice_pattern r sample (bi + Pattern.qubits_for c)
                  (acc ++ String x EmptyString)%string) as [e|s]; [exact IH|].
      destruct IH as [t [-> Hc]]. exists (String x t).
      rewrite append_assoc. split; [reflexivity | simpl; now split].
    + eexists _, _, _. split; [reflexivity|].
      rewrite slice_length in *. lia.
Qed.

Lemma parallel_results_any (pattern : string) (samples : list bitstring) :
  forall results,
    match Pattern.parallel_results samples pattern results with
    | inr rs => exists ts, rs = results ++ ts
                           /\ List.length ts = List.length samples
                           /\ Forall (conforms pattern) ts
    | inl e => exists expected actual index,
                 e = BitLengthMismatch expected actual index /\ actual < expected
    end.
Proof.
  induction samples as [|sample rest IH]; intros results; simpl.
  - exists []. rewrite app_nil_r. repeat split. constructor.
  - pose proof (slice_pattern_any pattern sample 0 EmptyString) as Hs.
    destruct (Pattern.slice_pattern pattern sample 0 EmptyString) as [e|s]; simpl;
      [exact Hs|].
    destruct Hs as [t [-> Hc]]. simpl.
    specialize (IH (results ++ [t])).
    destruct (Pattern.parallel_results rest pattern (results ++ [t])) as [e|rs];
      [exact IH|].
    destruct IH as [ts [-> [Hl Hf]]]. exists (t :: ts).
    rewrite <- app_assoc. split; [reflexivity|].
    split; [simpl; now rewrite Hl | now constructor].
Qed.

Section AnyProvider.

Variable P : Provider.

Lemma draw_bits_any (width : nat) (w : world P) :
  exists r w',
    draw_bits P width w = (r, w')
    /\ drawn w' = drawn w ++ [width]
    /\ match r with
       | inr _ => True
       | inl e => e = ProviderFailure
       end.
Proof.
  unfold draw_bits. destruct (draw P width (prov w)) as [[bits p']|];
    eexists _, _; (split; [reflexivity|]); simpl; now split.
Qed.

Lemma sequential_string_any (pattern : string) :
  forall acc w,
    exists r w' l,
      Pattern.sequential_string P pattern acc w = (r, w')
      /\ drawn w' = drawn w ++ l
      /\ match r with
         | inr s => l = widths pattern
                    /\ exists t, s = (acc ++ t)%string /\ conforms pattern t
         | inl e => is_prefix l (widths pattern)
                    /\ (e = ProviderFailure \/ e = InvalidLiteral)
         end.
Proof.
  induction pattern as [|c pr IH]; intros acc w.
  - exists (inr acc), w, []. simpl. rewrite app_nil_r.
    repeat split. exists EmptyString. now rewrite append_nil_r.
  - cbn [Pattern.sequential_string widths].
    destruct (draw_bits_any (Pattern.qubits_for c) w) as [r [w1 [Hd [Hw1 Hr]]]].
    destruct r as [e|bits].
    + exists (inl e), w1, [Pattern.qubits_for c].
      rewrite (bind_err Hd). repeat split; auto.
      exists (widths pr). reflexivity.
    + rewrite (bind_ok Hd).
      destruct (append_symbol (Pattern.is_D c) bits acc) as [e|a] eqn:Ha.
      * exists (inl e), w1, [Pattern.qubits_for c]. rewrite bind_lift_err.
        repeat split; auto; [exists (widths pr); reflexivity|].
        right. exact (proj1 (append_symbol_error _ _ _ Ha)).
      * rewrite bind_lift_ok.
        destruct (@append_symbol_ok (Pattern.is_D c) bits acc) as [x [Hx Hax]].
        { intros ->. destruct (Pattern.is_D c); discriminate Ha. }
        rewrite Hax in Ha. injection Ha as <-.
        destruct (IH (acc ++ String x EmptyString)%string w1)
          as [r [w' [l [Hs [Hw' Hm]]]]].
        exists r, w', (Pattern.qubits_for c :: l). split; [exact Hs|].
        split; [rewrite Hw', Hw1; now rewrite <- app_assoc|].
        destruct r as [e|s].
        -- destruct Hm as [Hp He]. split; [|exact He].
           exact (@is_prefix_app [Pattern.qubits_for c] l (widths pr) Hp).
        -- destruct Hm as [-> [t [-> Hc]]]. split; [reflexivity|].
           exists (String x t). rewrite append_assoc.
           split; [reflexivity | simpl; now split].
Qed.

Lemma sequential_results_any (pattern : string) (shots : nat) :
  forall results w,
    exists r w' l,
      Pattern.sequential_results P shots pattern results w = (r, w')
      /\ drawn w' = drawn w ++ l
      /\ match r with
         | inr rs => l = List.concat (repeat (widths pattern) shots)
                     /\ exists ts, rs = results ++ ts
                                   /\ List.length ts = shots
                                   /\ Forall (conforms pattern) ts
         | inl e => is_prefix l (List.concat (repeat (widths pattern) shots))
                    /\ (e = ProviderFailure \/ e = InvalidLiteral)
         end.
Proof.
  induction shots as [|k IH]; intros results w.
  - exists (inr results), w, []. simpl. rewrite app_nil_r.
    repeat split. exists []. rewrite app_nil_r. repeat split. constructor.
  - cbn [Pattern.sequential_results].
    destruct (sequential_string_any pattern EmptyString w)
      as [r [w1 [l1 [Hs [Hw1 Hm]]]]].
    destruct r as [e|s].
    + exists (inl e), w1, l1. rewrite (bind_err Hs).
      destruct Hm as [Hp He]. repeat split; auto.
      simpl. now apply is_prefix_weaken.
    + rewrite (bind_ok Hs). destruct Hm as [-> [t [-> Hc]]]. simpl.
      destruct (IH (results ++ [t]) w1) as [r [w' [l [Hr [Hw' Hm]]]]].
      exists r, w', (widths pattern ++ l). split; [exact Hr|].
      split; [rewrite Hw', Hw1; now rewrite <- app_assoc|].
      destruct r as [e|rs].
      * destruct Hm as [Hp He]. split; [|exact He]. now apply is_prefix_app.
      * destruct Hm as [-> [ts [-> [Hl Hf]]]]. split; [reflexivity|].
        exists (t :: ts). rewrite <- app_assoc.
        split; [reflexivity|]. split; [simpl; now rewrite Hl | now constructor].
Qed.

Lemma sample_states_any (width shots : nat) :
  forall w,
    exists r w' l,
      Pattern.sample_states P shots width w = (r, w')
      /\ drawn w' = drawn w ++ l
      /\ match r with
         | inr samples => l = repeat width shots /\ List.length samples = shots
         | inl e => is_prefix l (repeat width shots) /\ e = ProviderFailure
         end.
Proof.
  induction shots as [|k IH]; intros w.
  - exists (inr []), w, []. simpl. rewrite app_nil_r. now repeat split.
  - cbn [Pattern.sample_states].
    destruct (draw_bits_any width w) as [r [w1 [Hd [Hw1 Hr]]]].
    destruct r as [e|bits].
    + exists (inl e), w1, [width]. rewrite (bind_err Hd).
      repeat split; auto. exists (repeat width k). reflexivity.
    + rewrite (bind_ok Hd).
      destruct (IH w1) as [r [w' [l [Hs [Hw' Hm]]]]].
      destruct r as [e|samples].
      * exists (inl e), w', (width :: l). rewrite (bind_err Hs).
        split; [reflexivity|].
        split; [rewrite Hw', Hw1; now rewrite <- app_assoc|].
        destruct Hm as [Hp He]. split; [|exact He].
        exact (@is_prefix_app [width] l (repeat width k) Hp).
      * exists (inr (bits :: samples)), w', (width :: l). rewrite (bind_ok Hs).
        split; [reflexivity|].
        split; [rewrite Hw', Hw1; now rewrite <- app_assoc|].
        destruct Hm as [-> Hl]. split; [reflexivity | simpl; now rewrite Hl].
Qed.

(** Whatever the provider does, these are the ways the two branches end. *)
Lemma generate_results_any (p : string) (n : Z) (par : bool) (w : world P) :
  exists r w' l,
    Pattern.generate_results P p n par w = (r, w')
    /\ drawn w' = drawn w ++ l
    /\ match r with
       | inr ts => l = requests p n par
                   /\ List.length ts = Z.to_nat n
                   /\ Forall (conforms p) ts
       | inl ProviderFailure => is_prefix l (requests p n par)
       | inl InvalidLiteral =>
           par && (1 <? n)%Z = false /\ is_prefix l (requests p n par)
       | inl (BitLengthMismatch expected actual _) =>
           par && (1 <? n)%Z = true /\ actual < expected
           /\ l = requests p n par
       | inl _ => False
       end.
Proof.
  unfold Pattern.generate_results, requests.
  destruct (par && (1 <? n)%Z).
  - destruct (sample_states_any (Pattern.total_qubits p) (Z.to_nat n) w)
      as [r [w' [l [Hs [Hw Hm]]]]].
    destruct r as [e|samples].
    + exists (inl e), w', l. rewrite (bind_err Hs).
      destruct Hm as [Hp ->]. now repeat split.
    + rewrite (bind_ok Hs). destruct Hm as [-> Hl]. unfold lift.
      pose proof (parallel_results_any p samples []) as Hp.
      destruct (Pattern.parallel_results samples p []) as [e|ts].
      * destruct Hp as [x [a [i [-> Hlt]]]].
        eexists _, w', _. split; [reflexivity|]. split; [exact Hw|].
        now repeat split.
      * destruct Hp as [ts' [Heq [Hlen Hf]]]. simpl in Heq. subst ts'.
        eexists _, w', _. split; [reflexivity|]. split; [exact Hw|].
        repeat split; auto. now rewrite Hlen.
  - destruct (sequential_results_any p (Z.to_nat n) [] w)
      as [r [w' [l [Hs [Hw Hm]]]]].
    exists r, w', l. split; [exact Hs|]. split; [exact Hw|].
    destruct r as [e|ts].
    + destruct Hm as [Hp [->| ->]]; [exact Hp | now split].
    + destruct Hm as [-> [ts' [Heq [Hlen Hf]]]]. simpl in Heq. subst ts'.
      now repeat split.
Qed.

End AnyProvider.

Lemma result_value_strings (shots : pyval) (n : Z) (ts : list string) :
  as_int shots = Some n -> (0 < n)%Z -> List.length ts = Z.to_nat n ->
  exists v, Pattern.result_value shots ts = inr v /\ strings_of v = ts.
Proof.
  intros Hs Hn Hl. unfold Pattern.result_value, eq_one. rewrite Hs.
  destruct (Z.eqb_spec n 1) as [->|Hne].
  - destruct ts as [|t [|t' ts]]; simpl in Hl; try lia.
    exists (PyStr t). now split.
  - exists (PyList ts). now split.
Qed.

(** A valid call, with any provider: how it ends and what it requested. *)
Lemma generate_any (A : Pattern.arithmetic) (P : Provider) (p : string)
      (shots : pyval) (n : Z) (par : bool) (w : world P) :
  valid_pattern p -> as_int shots = Some n -> (0 < n)%Z ->
  let o := Pattern.generate_quantum_alphanumeric_string
             A P (PyStr p) shots (PyBool par) w in
  exists l,
    drawn (after o) = drawn w ++ l
    /\ ((stdout o = [] /\ l = requests p n par
         /\ List.length (strings_of (fst (returned o))) = Z.to_nat n
         /\ Forall (conforms p) (strings_of (fst (returned o))))
        \/ (returned o = (PyNone, Pattern.zero A)
            /\ ((stdout o = [ProviderFailure] /\ is_prefix l (requests p n par))
                \/ (stdout o = [InvalidLiteral] /\ par && (1 <? n)%Z = false
                    /\ is_prefix l (requests p n par))
                \/ (exists expected actual index,
                       stdout o = [BitLengthMismatch expected actual index]
                       /\ actual < expected
                       /\ par && (1 <? n)%Z = true
                       /\ l = requests p n par)))).
Proof.
  intros Hv Hs Hn.
  pose proof (@validate_ok p shots n par Hv Hs Hn) as Hval.
  destruct (@generate_results_any P p n par w) as [r [w' [l [Hr [Hw Hm]]]]].
  cbv zeta. exists l. destruct r as [e|ts].
  - rewrite (@generate_of_failure A P _ _ _ w w' p n par e Hval Hr).
    cbn [stdout returned after]. split; [exact Hw|]. right.
    split; [reflexivity|].
    destruct e; try contradiction.
    + right. right. destruct Hm as [Hb [Hlt ->]].
      eexists _, _, _. now repeat split.
    + right. left. destruct Hm as [Hb Hp]. now repeat split.
    + left. now split.
  - destruct Hm as [-> [Hl Hf]].
    destruct (@result_value_strings shots n ts Hs Hn Hl) as [v [Hres Hstr]].
    rewrite (@generate_of_results A P _ _ _ w w' p n par ts v Hval Hr Hres).
    cbn [stdout returned after fst]. split; [exact Hw|]. left.
    rewrite Hstr. now repeat split.
Qed.

(** X4.  Whatever the provider answers, a call of the pattern form with
    valid arguments either succeeds, returning as many strings as shots,
    each with one character of the right class per position, or fails in
    one of three ways only: the provider failed; a sample was empty
    (sequential sampling only); a sample was too short (parallel sampling
    of several shots only).  In particular indexing the alphabets and
    [results[0]] never fail. *)
Theorem X4_only_three_kinds_of_failure
        (A : Pattern.arithmetic) (P : Provider) (p : string)
        (shots : pyval) (n : Z) (par : bool) (w : world P) :
  valid_pattern p -> as_int shots = Some n -> (0 < n)%Z ->
  let o := Pattern.generate_quantum_alphanumeric_string
             A P (PyStr p) shots (PyBool par) w in
  (stdout o = []
   /\ List.length (strings_of (fst (returned o))) = Z.to_nat n
   /\ Forall (conforms p) (strings_of (fst (returned o))))
  \/ (returned o = (PyNone, Pattern.zero A)
      /\ (stdout o = [ProviderFailure]
          \/ (stdout o = [InvalidLiteral] /\ par && (1 <? n)%Z = false)
          \/ (exists expected actual index,
                 stdout o = [BitLengthMismatch expected actual index]
                 /\ actual < expected
                 /\ par && (1 <? n)%Z = true))).
Proof.
  intros Hv Hs Hn.
  destruct (@generate_any A P p shots n par w Hv Hs Hn) as [l [_ [Hok|[Hret Hfail]]]].
  - left. tauto.
  - right. split; [exact Hret|].
    destruct Hfail as [[H _]|[[H [Hb _]]|[x [a [i [H [Hlt [Hb _]]]]]]]].
    + now left.
    + right. left. now split.
    + right. right. exists x, a, i. now repeat split.
Qed.

Lemma X4_witness :
  let o := Pattern.generate_quantum_alphanumeric_string
             reals stub (PyStr "DL") (PyInt 2) (PyBool false)
             (fresh stub [bits_of_string "0000"; []]) in
  (stdout o = []
   /\ List.length (strings_of (fst (returned o))) = Z.to_nat 2
   /\ Forall (conforms "DL") (strings_of (fst (returned o))))
  \/ (returned o = (PyNone, 0%R)
      /\ (stdout o = [ProviderFailure]
          \/ (stdout o = [InvalidLiteral] /\ false && (1 <? 2)%Z = false)
          \/ (exists expected actual index,
                 stdout o = [BitLengthMismatch expected actual index]
                 /\ actual < expected
                 /\ false && (1 <? 2)%Z = true))).
Proof.
  apply (@X4_only_three_kinds_of_failure
           reals stub "DL" (PyInt 2) 2 false
           (fresh stub [bits_of_string "0000"; []])).
  - split; [discriminate | reflexivity].
  - reflexivity.
  - lia.
Defined.

(** X5.  Whatever the provider answers, the widths a valid call requests
    form an initial part of the full request sequence: position by position
    (4 for a digit, 5 for a letter), string after string, in sequential
    mode; one combined request per string in batch mode.  A successful call
    requests the full sequence; and batch mode has requested all of it
    before it reports a sample that is too short. *)
Theorem X5_requests_follow_the_pattern
        (A : Pattern.arithmetic) (P : Provider) (p : string)
        (shots : pyval) (n : Z) (par : bool) (w : world P) :
  valid_pattern p -> as_int shots = Some n -> (0 < n)%Z ->
  let o := Pattern.generate_quantum_alphanumeric_string
             A P (PyStr p) shots (PyBool par) w in
  exists l,
    drawn (after o) = drawn w ++ l
    /\ is_prefix l (requests p n par)
    /\ (stdout o = [] -> l = requests p n par)
    /\ (forall expected actual index,
           stdout o = [BitLengthMismatch expected actual index] ->
           l = requests p n par).
Proof.
  intros Hv Hs Hn.
  destruct (@generate_any A P p shots n par w Hv Hs Hn) as [l [Hw H]].
  cbv zeta. exists l. split; [exact Hw|].
  destruct H as [[Hout [-> _]]|[_ [[Hout Hp]|[[Hout [_ Hp]]|[x [a [i [Hout [_ [_ ->]]]]]]]]]].
  - split; [apply is_prefix_refl|]. now split.
  - split; [exact Hp|]. rewrite Hout. split; [discriminate | intros; discriminate].
  - split; [exact Hp|]. rewrite Hout. split; [discriminate | intros; discriminate].
  - split; [apply is_prefix_refl|]. now split.
Qed.

Lemma X5_witness :
  let o := Pattern.generate_quantum_alphanumeric_string
             reals stub (PyStr "DL") (PyInt 2) (PyBool false)
             (fresh stub [bits_of_string "0000"; bits_of_string "00001";
                          bits_of_string "1111"]) in
  exists l,
    drawn (after o) = [] ++ l
    /\ is_prefix l (requests "DL" 2 false)
    /\ (stdout o = [] -> l = requests "DL" 2 false)
    /\ (forall expected actual index,
           stdout o = [BitLengthMismatch expected actual index] ->
           l = requests "DL" 2 false).
Proof.
  apply (@X5_requests_follow_the_pattern
           reals stub "DL" (PyInt 2) 2 false
           (fresh stub [bits_of_string "0000"; bits_of_string "00001";
                        bits_of_string "1111"])).
  - split; [discriminate | reflexivity].
  - reflexivity.
  - lia.
Defined.

(** ** Sequential mode on a scripted provider *)

Lemma stub_sequential_string (pattern : string) :
  forall acc script log,
    String.length pattern <= List.length script ->
    Forall (fun bits : bitstring => bits <> []) script ->
    exists s,
      map_samples pattern (firstn (String.length pattern) script) acc = inr s
      /\ Pattern.sequential_string stub pattern acc (@Build_world stub script log)
         = (inr s, @Build_world stub (skipn (String.length pattern) script)
                                (log ++ widths pattern))
      /\ Forall (fun bits : bitstring => bits <> [])
                (skipn (String.length pattern) script).
Proof.
  induction pattern as [|c r IH]; intros acc script log Hlen Hall.
  - exists acc. simpl. rewrite app_nil_r. now repeat split.
  - destruct script as [|bits rest]; simpl in Hlen; [lia|].
    inversion Hall as [|? ? Hbits Hrest]; subst.
    destruct (@append_symbol_ok (Pattern.is_D c) bits acc Hbits) as [x [_ Ha]].
    destruct (IH (acc ++ String x EmptyString)%string rest
                 (log ++ [Pattern.qubits_for c])) as [s [Hm [Hs Hf]]];
      [lia | exact Hrest |].
    exists s. cbn [String.length firstn skipn map_samples].
    rewrite Ha. simpl ebind. split; [exact Hm|]. split; [|exact Hf].
    cbn [Pattern.sequential_string].
    assert (Hd : draw_bits stub (Pattern.qubits_for c) (@Build_world stub (bits :: rest) log)
                 = (inr bits, @Build_world stub rest (log ++ [Pattern.qubits_for c])))
      by reflexivity.
    rewrite (bind_ok Hd), Ha, bind_lift_ok, Hs. cbn [widths].
    now rewrite <- app_assoc.
Qed.

Lemma stub_sequential_results (pattern : string) (shots : nat) :
  forall results script log,
    shots * String.length pattern <= List.length script ->
    Forall (fun bits : bitstring => bits <> []) script ->
    exists ts,
      strings_from_script pattern shots script = map inr ts
      /\ Pattern.sequential_results stub shots pattern results
           (@Build_world stub script log)
         = (inr (results ++ ts),
            @Build_world stub (skipn (shots * String.length pattern) script)
                         (log ++ List.concat (repeat (widths pattern) shots))).
Proof.
  induction shots as [|k IH]; intros results script log Hlen Hall.
  - exists []. simpl. rewrite !app_nil_r. now split.
  - simpl in Hlen.
    destruct (@stub_sequential_string pattern EmptyString script log)
      as [s [Hm [Hs Hf]]]; [lia | exact Hall |].
    destruct (IH (results ++ [s]) (skipn (String.length pattern) script)
                 (log ++ widths pattern)) as [ts [Ht Hr]];
      [rewrite length_skipn; lia | exact Hf |].
    exists (s :: ts). split.
    + cbn [strings_from_script map]. now rewrite Hm, Ht.
    + cbn [Pattern.sequential_results]. rewrite (bind_ok Hs), Hr.
      rewrite skipn_skipn, <- !app_assoc. simpl.
      now rewrite (Nat.add_comm (k * String.length pattern)).
Qed.

(** X6.  Sequential mode fed from a script of non-empty samples takes one
    sample per position, string after string, and maps each to
    [alphabet[int(bits, 2) mod size]] whatever its width: no sample is
    checked against the width that was requested, none is skipped, and the
    unused rest of the script is left to the provider. *)
Theorem X6_sequential_mode_plays_the_script
        (A : Pattern.arithmetic) (p : string) (n : Z) (script : list bitstring) :
  valid_pattern p -> (1 <= n)%Z ->
  Z.to_nat n * String.length p <= List.length script ->
  Forall (fun bits : bitstring => bits <> []) script ->
  let o := Pattern.generate_quantum_alphanumeric_string
             A stub (PyStr p) (PyInt n) (PyBool false) (fresh stub script) in
  stdout o = []
  /\ map inr (strings_of (fst (returned o)))
     = strings_from_script p (Z.to_nat n) script
  /\ prov (after o) = skipn (Z.to_nat n * String.length p) script.
Proof.
  intros Hv Hn Hlen Hall.
  destruct (@stub_sequential_results p (Z.to_nat n) [] script [] Hlen Hall)
    as [ts [Ht Hr]].
  simpl in Hr.
  assert (Hl : List.length ts = Z.to_nat n).
  { assert (H : forall k s, List.length (strings_from_script p k s) = k)
      by (induction k; intros; simpl; auto).
    rewrite <- (H (Z.to_nat n) script), Ht. now rewrite length_map. }
  destruct (@result_value_strings (PyInt n) n ts eq_refl) as [v [Hres Hstr]];
    [lia | exact Hl |].
  assert (Hval : Pattern.validate (PyStr p) (PyInt n) (PyBool false)
                 = inr (p, n, false))
    by (apply validate_ok; [exact Hv | reflexivity | lia]).
  cbv zeta. unfold fresh.
  rewrite (@generate_of_results A stub _ _ _ _ _ p n false ts v Hval Hr Hres).
  cbn [stdout returned after fst prov]. rewrite Hstr, Ht. now repeat split.
Qed.

Lemma X6_witness :
  let script := [bits_of_string "1"; bits_of_string "11111111";
                 bits_of_string "10"; bits_of_string "00011"; bits_of_string "0"] in
  let o := Pattern.generate_quantum_alphanumeric_string
             reals stub (PyStr "DL") (PyInt 2) (PyBool false) (fresh stub script) in
  stdout o = []
  /\ map inr (strings_of (fst (returned o))) = strings_from_script "DL" 2 script
  /\ prov (after o) = skipn (Z.to_nat 2 * String.length "DL") script.
Proof.
  apply X6_sequential_mode_plays_the_script.
  - split; [discriminate | reflexivity].
  - lia.
  - simpl. lia.
  - repeat constructor; discriminate.
Defined.

(** ** The convenience form and the pattern form *)

Lemma string_loop_is_sequential (P : Provider) (todo : nat) :
  forall i acc w,
    Alternate.string_loop P todo i acc w
    = Pattern.sequential_string P (alternating_pattern i todo) acc w.
Proof.
  induction todo as [|k IH]; intros i acc w; [reflexivity|].
  cbn [Alternate.string_loop alternating_pattern Pattern.sequential_string].
  assert (Hq : (if i mod 2 =? 0 then Alternate.digit_qubits
                else Alternate.letter_qubits)
               = Pattern.qubits_for (if i mod 2 =? 0 then "D"%char else "L"%char))
    by (destruct (i mod 2 =? 0); reflexivity).
  assert (Hd : (i mod 2 =? 0)
               = Pattern.is_D (if i mod 2 =? 0 then "D"%char else "L"%char))
    by (destruct (i mod 2 =? 0); reflexivity).
  rewrite <- Hq, <- Hd. unfold bind.
  destruct (draw_bits P _ w) as [[e|bits] w1]; [reflexivity|].
  unfold lift. destruct (append_symbol (i mod 2 =? 0) bits acc); [reflexivity|].
  apply IH.
Qed.

Lemma shots_loop_is_sequential (P : Provider) (length shots : nat) :
  forall results w,
    Alternate.shots_loop P shots length results w
    = Pattern.sequential_results P shots (alternating_pattern 0 length) results w.
Proof.
  induction shots as [|k IH]; intros results w; [reflexivity|].
  cbn [Alternate.shots_loop Pattern.sequential_results]. unfold bind.
  rewrite string_loop_is_sequential.
  destruct (Pattern.sequential_string P _ EmptyString w) as [[e|s] w1];
    [reflexivity | apply IH].
Qed.

Lemma alternating_pattern_valid (todo : nat) :
  0 < todo -> forall i, valid_pattern (alternating_pattern i todo).
Proof.
  intros Hpos i. split.
  - destruct todo; [lia | discriminate].
  - clear Hpos. revert i. induction todo as [|k IH]; intros i; [reflexivity|].
    cbn [alternating_pattern all_chars]. rewrite IH.
    destruct (i mod 2 =? 0); reflexivity.
Qed.

(** X8.  The convenience form does not validate the shot count: with a
    valid length, a shot count that is an integer below 1 is answered with
    the empty list, and one that is not an integer fails when [range] is
    called on it; in both cases nothing is requested from the provider. *)
Theorem X8_convenience_form_shot_counts
        (P : Provider) (length shots : pyval) (w : world P) :
  valid_length length ->
  let a := Alternate.generate_quantum_alphanumeric P length shots w in
  (forall k, as_int shots = Some k -> (k <= 0)%Z ->
             stdout a = [] /\ returned a = PyList [] /\ after a = w)
  /\ (as_int shots = None ->
      stdout a = [RangeTypeError shots] /\ returned a = PyNone /\ after a = w).
Proof.
  intros [n [Hl [Hn He]]]. cbv zeta.
  unfold Alternate.generate_quantum_alphanumeric, Alternate.body.
  rewrite (@alt_validate_ok length n Hl Hn He), bind_lift_ok.
  unfold Alternate.range. split.
  - intros k Hs Hk. rewrite Hs, bind_lift_ok.
    replace (Z.to_nat k) with 0 by lia.
    unfold bind, lift, Alternate.result_value, eq_one. simpl. rewrite Hs.
    destruct (Z.eqb_spec k 1); [lia|]. now repeat split.
  - intros Hs. rewrite Hs, bind_lift_err. now repeat split.
Qed.

Lemma X8_witness :
  let a := Alternate.generate_quantum_alphanumeric
             stub (PyInt 4) (PyStr "3") (fresh stub [bits_of_string "0111"]) in
  stdout a = [RangeTypeError (PyStr "3")] /\ returned a = PyNone
  /\ after a = fresh stub [bits_of_string "0111"].
Proof.
  apply (@X8_convenience_form_shot_counts
           stub (PyInt 4) (PyStr "3") (fresh stub [bits_of_string "0111"])).
  - exists 4%Z. split; [reflexivity | split; [lia | reflexivity]].
  - reflexivity.
Defined.

Lemma succ_mod2 (i : nat) : (S i mod 2 =? 0) = negb (i mod 2 =? 0).
Proof. now rewrite <- !even_mod2, Nat.even_succ, <- Nat.negb_even. Qed.

Lemma alternating_widths_sum (j : nat) :
  forall i, list_sum (widths (alternating_pattern i (2 * j))) = 9 * j.
Proof.
  induction j as [|j IH]; intros i; [reflexivity|].
  replace (2 * S j) with (S (S (2 * j))) by lia.
  specialize (IH (S (S i))). remember (2 * j) as m eqn:Hm.
  cbn [alternating_pattern widths list_sum fold_right]. rewrite succ_mod2.
  unfold list_sum in IH. rewrite IH.
  destruct (i mod 2 =? 0); cbn [negb];
    change (Pattern.qubits_for "D") with 4;
    change (Pattern.qubits_for "L") with 5; lia.
Qed.

(** X9.  With a provider that honours the requested widths, a call of the
    convenience form with a positive even length [n] and an integer shot
    count [k] requests, for each of its [max k 0] strings, 4 bits for every
    even index and 5 bits for every odd one, and nothing else: 9 bits per
    pair of characters. *)
Theorem X9_convenience_form_requests
        (P : Provider) (length shots : pyval) (n k : Z) (w : world P) :
  honours_width P ->
  as_int length = Some n -> (0 < n)%Z -> (n mod 2 = 0)%Z ->
  as_int shots = Some k ->
  let a := Alternate.generate_quantum_alphanumeric P length shots w in
  let per_string := widths (alternating_pattern 0 (Z.to_nat n)) in
  drawn (after a) = drawn w ++ List.concat (repeat per_string (Z.to_nat k))
  /\ per_string
     = map (fun i => if Nat.even i then 4 else 5) (seq 0 (Z.to_nat n))
  /\ 2 * list_sum per_string = 9 * Z.to_nat n.
Proof.
  intros HP Hl Hn He Hs. cbv zeta. split; [|split].
  - destruct (@sequential_results_ok P HP (alternating_pattern 0 (Z.to_nat n))
                (Z.to_nat k) [] w) as [ts [w' [Hr [_ [_ Hw]]]]].
    rewrite <- shots_loop_is_sequential in Hr.
    unfold Alternate.generate_quantum_alphanumeric, Alternate.body.
    rewrite (@alt_validate_ok length n Hl Hn He), bind_lift_ok.
    unfold Alternate.range. rewrite Hs, bind_lift_ok, (bind_ok Hr).
    unfold lift. destruct (Alternate.result_value shots ([] ++ ts)); exact Hw.
  - generalize (Z.to_nat n) as m. intros m.
    assert (H : forall i, widths (alternating_pattern i m)
                          = map (fun i => if Nat.even i then 4 else 5) (seq i m)).
    { induction m as [|m IH]; intros i; [reflexivity|].
      cbn [alternating_pattern widths seq map]. rewrite IH, even_mod2.
      now destruct (i mod 2 =? 0). }
    apply H.
  - assert (Hm : Z.to_nat n = 2 * Z.to_nat (n / 2)).
    { pose proof (Z.div_mod n 2). lia. }
    rewrite Hm, alternating_widths_sum. lia.
Qed.

Lemma X9_witness :
  let P := streaming Nat.odd in
  let a := Alternate.generate_quantum_alphanumeric P (PyInt 4) (PyInt 2) (fresh P 0) in
  let per_string := widths (alternating_pattern 0 (Z.to_nat 4)) in
  drawn (after a) = [] ++ List.concat (repeat per_string (Z.to_nat 2))
  /\ per_string = map (fun i => if Nat.even i then 4 else 5) (seq 0 (Z.to_nat 4))
  /\ 2 * list_sum per_string = 9 * Z.to_nat 4.
Proof.
  apply (@X9_convenience_form_requests
           (streaming Nat.odd) (PyInt 4) (PyInt 2) 4 2 (fresh (streaming Nat.odd) 0));
    solve [apply streaming_honours_width | reflexivity | lia].
Defined.

(** * Further properties of the entropy *)

(** ** The frequency table *)

Lemma dict_set_increment_sum (c : ascii) (d : Pattern.dict) :
  list_sum (Pattern.dict_values (Pattern.dict_set c (Pattern.dict_get c d 0 + 1) d))
  = list_sum (Pattern.dict_values d) + 1.
Proof.
  unfold Pattern.dict_values.
  induction d as [|[k v] rest IH]; simpl; [reflexivity|].
  destruct (Ascii.eqb k c); simpl; [lia | rewrite IH; lia].
Qed.

Lemma tally_sum (chars : list ascii) :
  forall d,
    list_sum (Pattern.dict_values (tally chars d))
    = list_sum (Pattern.dict_values d) + List.length chars.
Proof.
  induction chars as [|x chars IH]; intros d; simpl; [lia|].
  unfold tally in *. simpl. rewrite IH, dict_set_increment_sum. lia.
Qed.

Lemma dict_get_of_entry (d : Pattern.dict) (c : ascii) (v default : nat) :
  NoDup (dict_keys d) -> In (c, v) d -> Pattern.dict_get c d default = v.
Proof.
  induction d as [|[k v0] rest IH]; simpl; [tauto|].
  intros Hnd [Heq|Hin]; inversion Hnd as [|? ? Hnin Hrest]; subst.
  - injection Heq as -> ->. now rewrite Ascii.eqb_refl.
  - destruct (Ascii.eqb_spec k c) as [->|_]; [|now apply IH].
    exfalso. apply Hnin. change c with (fst (c, v)). now apply in_map.
Qed.

(** X10.  The counting loops of [calculate_entropy] leave a table with one
    entry per distinct character of the batch, each holding the number of
    occurrences of its character (at least 1), and the entries add up to
    [total_chars], the number of characters of all strings. *)
Theorem X10_frequency_table_invariants (strings : list string) :
  let table := fst (Pattern.count_strings strings) in
  let total_chars := snd (Pattern.count_strings strings) in
  NoDup (dict_keys table)
  /\ (forall c, In c (dict_keys table) <-> In c (flatten strings))
  /\ (forall c v, In (c, v) table ->
                  v = count_occ ascii_dec (flatten strings) c /\ 1 <= v)
  /\ list_sum (Pattern.dict_values table) = total_chars
  /\ total_chars = List.length (flatten strings).
Proof.
  cbv zeta. rewrite count_strings_tally. cbn [fst snd].
  destruct (@tally_keys (flatten strings) [] (NoDup_nil _)) as [Hnd Hin].
  split; [exact Hnd|]. split; [intros c; rewrite Hin; simpl; tauto|].
  split; [|split; [now rewrite tally_sum | reflexivity]].
  intros c v Hcv.
  assert (Hv : v = count_occ ascii_dec (flatten strings) c).
  { rewrite <- (@dict_get_of_entry _ c v 0 Hnd Hcv). now rewrite tally_get. }
  split; [exact Hv|]. subst v.
  apply (count_occ_In ascii_dec).
  assert (Hk : In c (dict_keys (tally (flatten strings) []))).
  { change c with (fst (c, count_occ ascii_dec (flatten strings) c)).
    now apply in_map. }
  apply Hin in Hk. destruct Hk as [[]|Hk]. exact Hk.
Qed.

(** ** Characters, not strings *)

Lemma calculate_entropy_by_chars (A : Pattern.arithmetic) (strings : list string) :
  Pattern.calculate_entropy A strings
  = fold_left (Pattern.entropy_step A (List.length (flatten strings)))
              (Pattern.dict_values (tally (flatten strings) []))
              (Pattern.zero A).
Proof.
  destruct strings as [|s rest]; [reflexivity|].
  unfold Pattern.calculate_entropy. now rewrite count_strings_tally.
Qed.

(** X11.  In any arithmetic, the entropy depends only on the sequence of
    characters of the batch, not on how they are grouped into strings; and
    a batch without characters, such as a list of empty strings, has
    entropy 0.0: nothing is divided by the zero [total_chars]. *)
Theorem X11_entropy_is_of_characters
        (A : Pattern.arithmetic) (strings strings' : list string) :
  (flatten strings = flatten strings' ->
   Pattern.calculate_entropy A strings = Pattern.calculate_entropy A strings')
  /\ (flatten strings = [] ->
      Pattern.calculate_entropy A strings = Pattern.zero A).
Proof.
  split; intros H; rewrite !calculate_entropy_by_chars, H; reflexivity.
Qed.

Lemma X11_witness :
  Pattern.calculate_entropy reals ["ab"%string; "c"%string; ""%string]
  = Pattern.calculate_entropy reals ["a"%string; "bc"%string]
  /\ Pattern.calculate_entropy reals [""%string; ""%string] = 0%R.
Proof.
  split.
  - apply (@X11_entropy_is_of_characters
             reals ["ab"%string; "c"%string; ""%string] ["a"%string; "bc"%string]).
    reflexivity.
  - apply (@X11_entropy_is_of_characters reals [""%string; ""%string] []).
    reflexivity.
Defined.

Lemma X10_witness :
  let table := fst (Pattern.count_strings ["aba"%string; "c"%string]) in
  In ("a"%char, 2) table
  /\ 2 = count_occ ascii_dec (flatten ["aba"%string; "c"%string]) "a"%char
  /\ list_sum (Pattern.dict_values table) = 4.
Proof.
  destruct (X10_frequency_table_invariants ["aba"%string; "c"%string])
    as [_ [_ [Hcount [Hsum Htotal]]]].
  assert (Hin : In ("a"%char, 2) (fst (Pattern.count_strings ["aba"%string; "c"%string])))
    by (left; reflexivity).
  split; [exact Hin|]. split; [exact (proj1 (Hcount _ _ Hin))|].
  rewrite Hsum, Htotal. reflexivity.
Defined.

(** ** The entropy on the real numbers *)

Lemma calculate_entropy_shannon (strings : list string) :
  Pattern.calculate_entropy reals strings = shannon_entropy strings.
Proof.
  rewrite calculate_entropy_by_keys. unfold shannon_entropy. cbv zeta.
  set (chars := flatten strings).
  destruct (@tally_keys chars [] (NoDup_nil _)) as [Hnd Hin].
  assert (Hperm : Permutation (dict_keys (tally chars [])) (nodup ascii_dec chars)).
  { apply NoDup_Permutation; [exact Hnd | apply NoDup_nodup |].
    intros c. rewrite Hin, nodup_In. simpl. tauto. }
  rewrite (Rsum_permutation (Permutation_map _ Hperm)).
  f_equal. apply map_ext_in. intros c Hc. apply nodup_In in Hc.
  unfold probability. rewrite entropy_term_positive; [reflexivity | |].
  - now apply (count_occ_In ascii_dec).
  - destruct chars; [contradiction | simpl; lia].
Qed.

Lemma distinct_counts_sum (chars : list ascii) :
  list_sum (map (count_occ ascii_dec chars) (nodup ascii_dec chars))
  = List.length chars.
Proof.
  destruct (@tally_keys chars [] (NoDup_nil _)) as [Hnd Hin].
  assert (Hperm : Permutation (dict_keys (tally chars [])) (nodup ascii_dec chars)).
  { apply NoDup_Permutation; [exact Hnd | apply NoDup_nodup |].
    intros c. rewrite Hin, nodup_In. simpl. tauto. }
  rewrite <- (@Permutation_list_sum _ _ (Permutation_map _ Hperm)).
  pose proof (tally_sum chars []) as Hsum. simpl in Hsum. rewrite <- Hsum.
  rewrite (@dict_values_by_key _ Hnd). f_equal. apply map_ext.
  intros c. now rewrite tally_get.
Qed.

Lemma Rsum_INR (A : Type) (f : A -> nat) (total : R) (l : list A) :
  Rsum (map (fun a => INR (f a) / total)%R l) = (INR (list_sum (map f l)) / total)%R.
Proof.
  induction l as [|a l IH]; simpl.
  - unfold Rdiv. now rewrite Rmult_0_l.
  - rewrite IH, plus_INR. unfold Rdiv. ring.
Qed.

Lemma probability_sum (chars : list ascii) :
  chars <> [] ->
  Rsum (map (probability chars) (nodup ascii_dec chars)) = 1%R.
Proof.
  intros Hne. unfold probability.
  rewrite (Rsum_INR (count_occ ascii_dec chars)), distinct_counts_sum.
  apply Rdiv_diag. apply not_0_INR. destruct chars; [congruence | discriminate].
Qed.

Lemma probability_range (chars : list ascii) (c : ascii) :
  In c chars -> (0 < probability chars c <= 1)%R.
Proof.
  intros Hin. unfold probability.
  assert (Hc : 0 < count_occ ascii_dec chars c) by now apply (count_occ_In ascii_dec).
  pose proof (count_occ_bound ascii_dec c chars) as Hb.
  assert (Ht : (0 < INR (List.length chars))%R) by (apply lt_0_INR; lia).
  split.
  - apply Rdiv_lt_0_compat; [apply lt_0_INR; exact Hc | exact Ht].
  - apply (Rmult_le_reg_r (INR (List.length chars))); [exact Ht|].
    unfold Rdiv. rewrite Rmult_assoc, Rinv_l, Rmult_1_r, Rmult_1_l by lra.
    now apply le_INR.
Qed.

Lemma ln_2_pos : (0 < ln 2)%R.
Proof. pose proof ln_lt_2. lra. Qed.

Lemma Rsum_nonneg (l : list R) : Forall (fun x => 0 <= x)%R l -> (0 <= Rsum l)%R.
Proof. induction 1; simpl; lra. Qed.

Lemma Rsum_zero_inv (l : list R) :
  Forall (fun x => 0 <= x)%R l -> Rsum l = 0%R -> Forall (fun x => x = 0%R) l.
Proof.
  induction 1 as [|x l Hx Hl IH]; simpl; intros Hsum; [constructor|].
  pose proof (Rsum_nonneg Hl). constructor; [lra | apply IH; lra].
Qed.

Lemma entropy_term_nonneg (p : R) : (0 < p <= 1)%R -> (0 <= - (p * Rlog2 p))%R.
Proof.
  intros [Hp Hle]. unfold Rlog2.
  assert (Hln : (ln p <= 0)%R).
  { destruct (Req_dec p 1) as [->|Hne]; [rewrite ln_1; lra|].
    rewrite <- ln_1. left. apply ln_increasing; lra. }
  pose proof ln_2_pos as H2.
  assert (Hinv : (0 < / ln 2)%R) by now apply Rinv_0_lt_compat.
  unfold Rdiv.
  assert (Hq : (ln p * / ln 2 <= 0)%R) by nra.
  nra.
Qed.

Lemma Rsum_const (A : Type) (b : R) (l : list A) :
  Rsum (map (fun _ => b) l) = (INR (List.length l) * b)%R.
Proof.
  induction l as [|x l IH]; [simpl; ring|].
  cbn [map Rsum List.length]. rewrite IH, S_INR. ring.
Qed.

Lemma entropy_term_zero_inv (p : R) :
  (0 < p)%R -> (- (p * Rlog2 p))%R = 0%R -> p = 1%R.
Proof.
  intros Hp H. unfold Rlog2, Rdiv in H.
  pose proof ln_2_pos as Hl2.
  assert (Hinv : (/ ln 2 <> 0)%R) by (apply Rinv_neq_0_compat; lra).
  assert (Hln : ln p = 0%R).
  { destruct (Req_dec (ln p) 0) as [E|E]; [exact E|]. exfalso.
    assert (Hprod : (p * (ln p * / ln 2) <> 0)%R).
    { apply Rmult_integral_contrapositive_currified; [lra|].
      now apply Rmult_integral_contrapositive_currified. }
    lra. }
  apply ln_inv; [exact Hp | lra | now rewrite ln_1].
Qed.

(** X14.  On the real numbers the entropy of a batch is 0 exactly when the
    batch has at most one distinct character. *)
Theorem X14_zero_entropy_iff_one_character (strings : list string) :
  Pattern.calculate_entropy reals strings = 0%R <-> distinct_chars strings <= 1.
Proof.
  rewrite calculate_entropy_shannon. unfold shannon_entropy, distinct_chars.
  cbv zeta. set (chars := flatten strings).
  destruct chars as [|c0 r] eqn:Hchars; [simpl; split; [lia | reflexivity]|].
  rewrite <- Hchars.
  assert (Hne : chars <> []) by (rewrite Hchars; discriminate).
  pose proof (probability_sum Hne) as Hsum.
  split.
  - intros H0.
    assert (Hall : Forall (fun x => x = 0%R)
                     (map (fun c => (- (probability chars c
                                        * Rlog2 (probability chars c)))%R)
                          (nodup ascii_dec chars))).
    { apply Rsum_zero_inv; [|exact H0]. apply Forall_forall. intros x Hx.
      apply in_map_iff in Hx. destruct Hx as [c [<- Hc]].
      apply entropy_term_nonneg, probability_range. now apply nodup_In in Hc. }
    assert (Hone : forall c, In c (nodup ascii_dec chars) -> probability chars c = 1%R).
    { intros c Hc. apply entropy_term_zero_inv.
      - apply probability_range. now apply nodup_In in Hc.
      - rewrite Forall_forall in Hall. apply Hall.
        apply in_map_iff. now exists c. }
    rewrite (map_ext_in _ (fun _ => 1%R) _ Hone), Rsum_const, Rmult_1_r in Hsum.
    change 1%R with (INR 1) in Hsum. apply INR_eq in Hsum. rewrite Hsum. lia.
  - intros Hk.
    destruct (nodup ascii_dec chars) as [|c [|c' l]] eqn:Hd; simpl in Hk; try lia.
    + reflexivity.
    + simpl in Hsum. assert (Hp : probability chars c = 1%R) by lra.
      simpl. rewrite Hp, log2_one. lra.
Qed.

Lemma X14_witness :
  Pattern.calculate_entropy reals ["zz"%string; "z"%string] = 0%R.
Proof.
  apply (proj2 (X14_zero_entropy_iff_one_character ["zz"%string; "z"%string])).
  vm_compute. lia.
Defined.

(** * Further properties of the mapper *)

Lemma all_bitstrings_complete (width : nat) :
  forall bits, List.length bits = width <-> In bits (all_bitstrings width).
Proof.
  induction width as [|k IH]; intros bits; simpl.
  - destruct bits; simpl; split; intros H; try discriminate; auto.
    destruct H as [H|[]]. discriminate H.
  - rewrite in_app_iff, !in_map_iff. split.
    + destruct bits as [|b r]; simpl; [discriminate|]. intros H.
      injection H as H. apply IH in H.
      destruct b; [right | left]; exists r; now split.
    + intros [[r [<- Hr]]|[r [<- Hr]]]; simpl; f_equal; now apply IH.
Qed.

(** X16.  The letter mapper has the same kind of bias as the digit mapper:
    of the 32 five-bit samples, [int(bits, 2) mod 26] sends exactly two to
    each of the indices 0 to 5 (the letters a to f) and exactly one to each
    of the indices 6 to 25; every letter can be reached. *)
Theorem X16_letter_mapping_bias (i : Z) :
  (0 <= i <= 25)%Z ->
  List.length (all_bitstrings 5) = 32
  /\ (forall bits, List.length bits = 5 <-> In bits (all_bitstrings 5))
  /\ letter_hits i = (if (i <=? 5)%Z then 2 else 1).
Proof.
  intros Hi. split; [reflexivity|].
  split; [exact (all_bitstrings_complete 5)|].
  assert (H : exists n, n < 26 /\ i = Z.of_nat n) by (exists (Z.to_nat i); lia).
  destruct H as [n [Hn ->]].
  do 26 (destruct n as [|n]; [vm_compute; reflexivity|]).
  lia.
Qed.

Lemma X16_witness :
  List.length (all_bitstrings 5) = 32 /\ letter_hits 3 = 2 /\ letter_hits 25 = 1.
Proof.
  destruct (@X16_letter_mapping_bias 3) as [Hlen [_ H3]]; [lia|].
  destruct (@X16_letter_mapping_bias 25) as [_ [_ H25]]; [lia|].
  split; [exact Hlen | split; [exact H3 | exact H25]].
Defined.

(** * Characters and the samples they come from *)

Lemma get_append_right (a b : string) (i : nat) :
  String.get (String.length a + i) (a ++ b) = String.get i b.
Proof. induction a as [|x a IH]; simpl; [reflexivity | exact IH]. Qed.

Lemma length_append_one (a : string) (x : ascii) :
  String.length (a ++ String x EmptyString) = String.length a + 1.
Proof. induction a as [|y a IH]; simpl; [reflexivity | now rewrite IH]. Qed.

Lemma widths_length (pattern : string) :
  List.length (widths pattern) = String.length pattern.
Proof. induction pattern as [|c r IH]; simpl; [reflexivity | now rewrite IH]. Qed.

Lemma append_symbol_mapped (is_digit : bool) (bits : bitstring) (acc a : string) :
  append_symbol is_digit bits acc = inr a ->
  exists x, mapped is_digit bits = Some x
            /\ a = (acc ++ String x EmptyString)%string.
Proof.
  intros Ha.
  destruct (@append_symbol_formula is_digit bits acc) as [x [Hx Hax]].
  { intros ->. destruct is_digit; discriminate Ha. }
  exists x. split; [exact Hx|]. rewrite Hax in Ha. now injection Ha as <-.
Qed.

Lemma map_samples_prefix (pattern : string) :
  forall samples acc s,
    map_samples pattern samples acc = inr s -> exists t, s = (acc ++ t)%string.
Proof.
  induction pattern as [|c r IH]; intros samples acc s; simpl.
  - intros H. injection H as <-. exists EmptyString. now rewrite append_nil_r.
  - destruct samples as [|bits rest].
    + intros H. injection H as <-. exists EmptyString. now rewrite append_nil_r.
    + destruct (append_symbol (Pattern.is_D c) bits acc) as [e|a] eqn:Ha; simpl;
        [discriminate|].
      intros H. destruct (IH rest a s H) as [t ->].
      destruct (append_symbol_mapped _ _ _ Ha) as [x [_ ->]].
      exists (String x t). now rewrite append_assoc.
Qed.

(** In the string [map_samples] builds, the character of a position is the
    one its sample is mapped to. *)
Lemma map_samples_get (pattern : string) :
  forall samples acc s i c bits,
    map_samples pattern samples acc = inr s ->
    String.get i pattern = Some c -> nth_error samples i = Some bits ->
    String.get (String.length acc + i) s = mapped (Pattern.is_D c) bits.
Proof.
  induction pattern as [|c0 r IH]; intros samples acc s i c bits; simpl;
    [discriminate|].
  destruct samples as [|bits0 rest]; [destruct i; discriminate|].
  destruct (append_symbol (Pattern.is_D c0) bits0 acc) as [e|a] eqn:Ha; simpl;
    [discriminate|].
  destruct (append_symbol_mapped _ _ _ Ha) as [x [Hx ->]].
  intros Hm. destruct i as [|i]; simpl.
  - intros Hc Hb. injection Hc as <-. injection Hb as <-.
    destruct (map_samples_prefix _ _ _ Hm) as [t ->].
    rewrite append_assoc, get_append_right. simpl. now rewrite Hx.
  - intros Hc Hb.
    rewrite <- (IH rest _ s i c bits Hm Hc Hb).
    f_equal. rewrite length_append_one. lia.
Qed.

Lemma get_lt (s : string) :
  forall i c, String.get i s = Some c -> i < String.length s.
Proof.
  induction s as [|x s IH]; simpl; intros i c H; [discriminate|].
  destruct i as [|i]; [lia|]. apply IH in H. lia.
Qed.

Lemma length_concat_repeat (A : Type) (l : list A) (n : nat) :
  List.length (List.concat (repeat l n)) = n * List.length l.
Proof. induction n as [|n IH]; simpl; [reflexivity|]. now rewrite length_app, IH. Qed.

Lemma Forall2_nth_error_r (A B : Type) (R : A -> B -> Prop) (l : list A) :
  forall (l' : list B) k y,
    Forall2 R l l' -> nth_error l' k = Some y ->
    exists x, nth_error l k = Some x /\ R x y.
Proof.
  induction l as [|a l IH]; intros l' k y HF Hk; inversion HF; subst.
  - destruct k; discriminate Hk.
  - destruct k as [|k]; simpl in *.
    + injection Hk as <-. now eexists.
    + eapply IH; eassumption.
Qed.

Lemma Forall2_nth_error_l (A B : Type) (R : A -> B -> Prop) (l : list A) :
  forall (l' : list B) k x,
    Forall2 R l l' -> nth_error l k = Some x ->
    exists y, nth_error l' k = Some y /\ R x y.
Proof.
  induction l as [|a l IH]; intros l' k x HF Hk; inversion HF; subst.
  - destruct k; discriminate Hk.
  - destruct k as [|k]; simpl in *.
    + injection Hk as <-. now eexists.
    + eapply IH; eassumption.
Qed.

(** The slice of a position starts at the position's offset. *)
Lemma slices_nth (pattern : string) (sample : bitstring) :
  forall bit_index i c,
    String.get i pattern = Some c ->
    nth_error (slices pattern sample bit_index) i
    = Some (slice sample (bit_index + offset pattern i)
                  (bit_index + offset pattern i + Pattern.qubits_for c)).
Proof.
  induction pattern as [|c0 r IH]; intros bi i c; simpl; [discriminate|].
  destruct i as [|i]; simpl.
  - intros H. injection H as <-. now rewrite Nat.add_0_r.
  - intros H. rewrite (IH _ _ _ H). now rewrite Nat.add_assoc.
Qed.

Lemma parallel_results_each (pattern : string) (samples : list bitstring) :
  forall results ts,
    Pattern.parallel_results samples pattern results = inr ts ->
    exists new,
      ts = results ++ new
      /\ Forall2 (fun sample t =>
                    Pattern.slice_pattern pattern sample 0 EmptyString = inr t)
                 samples new.
Proof.
  induction samples as [|sample rest IH]; intros results ts; simpl.
  - intros H. injection H as <-. exists []. rewrite app_nil_r. split; constructor.
  - destruct (Pattern.slice_pattern pattern sample 0 EmptyString) as [e|a] eqn:Ha;
      simpl; [discriminate|].
    intros H. destruct (IH _ _ H) as [new [-> HF]].
    exists (a :: new). rewrite <- app_assoc. split; [reflexivity|].
    now constructor.
Qed.

(** ** The provider's answers *)

Section Answers.

Variable P : Provider.
Hypothesis HP : honours_width P.

Lemma answers_widths (requested : list nat) :
  forall p0,
    Forall2 (fun (bits : bitstring) width => List.length bits = width)
            (answers P requested p0) requested.
Proof.
  induction requested as [|width rest IH]; intros p0; simpl; [constructor|].
  destruct (HP width p0) as [bits [p1 [Hd Hl]]]. rewrite Hd.
  constructor; [exact Hl | apply IH].
Qed.

Lemma answers_length (requested : list nat) (p0 : pstate P) :
  List.length (answers P requested p0) = List.length requested.
Proof. exact (Forall2_length (answers_widths requested p0)). Qed.

Lemma answers_app (a b : list nat) :
  forall p0,
    answers P (a ++ b) p0
    = answers P a p0 ++ answers P b (provider_after P a p0).
Proof.
  induction a as [|width rest IH]; intros p0; simpl; [reflexivity|].
  destruct (HP width p0) as [bits [p1 [Hd _]]]. rewrite Hd. simpl.
  now rewrite IH.
Qed.

Lemma sequential_string_answers (pattern : string) :
  forall acc w,
    exists s w',
      Pattern.sequential_string P pattern acc w = (inr s, w')
      /\ map_samples pattern (answers P (widths pattern) (prov w)) acc = inr s
      /\ prov w' = provider_after P (widths pattern) (prov w).
Proof.
  induction pattern as [|c r IH]; intros acc w.
  - exists acc, w. now repeat split.
  - destruct (HP (Pattern.qubits_for c) (prov w)) as [bits [p1 [Hd Hl]]].
    destruct (@append_symbol_ok (Pattern.is_D c) bits acc) as [x [_ Ha]].
    { apply length_pos_nonempty. rewrite Hl. apply qubits_for_pos. }
    destruct (IH (acc ++ String x EmptyString)%string
                 {| prov := p1; drawn := drawn w ++ [Pattern.qubits_for c] |})
      as [s [w' [Hs [Hm Hp]]]].
    exists s, w'.
    assert (Hb : draw_bits P (Pattern.qubits_for c) w
                 = (inr bits, {| prov := p1;
                                 drawn := drawn w ++ [Pattern.qubits_for c] |}))
      by (unfold draw_bits; now rewrite Hd).
    cbn [Pattern.sequential_string widths answers provider_after].
    rewrite (bind_ok Hb), Ha, bind_lift_ok, Hs, Hd.
    cbn [map_samples]. rewrite Ha. simpl ebind.
    now repeat split.
Qed.

Lemma sequential_results_answers (pattern : string) (shots : nat) :
  forall results w,
    exists ts w',
      Pattern.sequential_results P shots pattern results w
      = (inr (results ++ ts), w')
      /\ List.length ts = shots
      /\ forall k s,
           nth_error ts k = Some s ->
           map_samples pattern
             (firstn (String.length pattern)
                (skipn (k * String.length pattern)
                   (answers P (List.concat (repeat (widths pattern) shots))
                            (prov w))))
             EmptyString
           = inr s.
Proof.
  induction shots as [|j IH]; intros results w.
  - exists [], w. simpl. rewrite app_nil_r. repeat split.
    intros k s H. destruct k; discriminate H.
  - destruct (sequential_string_answers pattern EmptyString w)
      as [t [w1 [Hs [Hm Hp]]]].
    destruct (IH (results ++ [t]) w1) as [ts [w' [Hr [Hl Hk]]]].
    exists (t :: ts), w'. cbn [Pattern.sequential_results].
    rewrite (bind_ok Hs), Hr, <- app_assoc.
    split; [reflexivity|]. split; [simpl; now rewrite Hl|].
    assert (Hlen : List.length (answers P (widths pattern) (prov w))
                   = String.length pattern)
      by (now rewrite answers_length, widths_length).
    intros k s Hn. cbn [repeat List.concat]. rewrite answers_app, <- Hp.
    destruct k as [|k]; simpl in Hn.
    + injection Hn as <-. cbn [Nat.mul skipn].
      rewrite firstn_app, Hlen, Nat.sub_diag, firstn_all2 by lia.
      cbn [firstn]. now rewrite app_nil_r.
    + rewrite skipn_app, skipn_all2 by (rewrite Hlen; simpl; lia).
      rewrite Hlen. cbn [app].
      replace (S k * String.length pattern - String.length pattern)
        with (k * String.length pattern) by (simpl; lia).
      exact (Hk k s Hn).
Qed.

Lemma sample_states_answers (width shots : nat) :
  forall w,
    exists w',
      Pattern.sample_states P shots width w
      = (inr (answers P (repeat width shots) (prov w)), w').
Proof.
  induction shots as [|k IH]; intros w.
  - now exists w.
  - destruct (HP width (prov w)) as [bits [p1 [Hd Hl]]].
    destruct (IH {| prov := p1; drawn := drawn w ++ [width] |}) as [w' Hs].
    exists w'.
    assert (Hb : draw_bits P width w
                 = (inr bits, {| prov := p1; drawn := drawn w ++ [width] |}))
      by (unfold draw_bits; now rewrite Hd).
    cbn [Pattern.sample_states repeat answers].
    now rewrite (bind_ok Hb), (bind_ok Hs), Hd.
Qed.

(** In both modes, the character at a position of a generated string is
    the one the position's sample is mapped to. *)
Lemma generate_results_positions (p : string) (n : Z) (par : bool)
      (w w' : world P) (ts : list string) :
  Pattern.generate_results P p n par w = (inr ts, w') ->
  List.length ts = Z.to_nat n ->
  forall k s i c,
    nth_error ts k = Some s -> String.get i p = Some c ->
    String.get i s
    = mapped (Pattern.is_D c)
             (position_sample p (par && (1 <? n)%Z)
                              (answers P (requests p n par) (prov w)) k i c).
Proof.
  unfold Pattern.generate_results, requests, position_sample.
  destruct (par && (1 <? n)%Z); cbv iota; intros Hg Hl k s i c Hk Hi.
  - destruct (sample_states_answers (Pattern.total_qubits p) (Z.to_nat n) w)
      as [w1 Hs].
    rewrite (bind_ok Hs) in Hg. unfold lift in Hg.
    injection Hg as Hg _.
    destruct (parallel_results_each _ _ _ Hg) as [new [-> HF]].
    cbn [app] in Hk.
    destruct (Forall2_nth_error_r _ HF Hk) as [sample [Hsample Hslice]].
    destruct (Forall2_nth_error_l _ (answers_widths _ (prov w)) Hsample)
      as [width [Hwidth Hlen]].
    apply nth_error_In, repeat_spec in Hwidth. subst width.
    match goal with
    | |- context [nth k ?l ?d] =>
        replace (nth k l d) with sample
          by (symmetry; apply nth_error_nth; exact Hsample)
    end.
    rewrite slice_pattern_map_samples in Hslice by (simpl; lia).
    exact (@map_samples_get p _ EmptyString s i c _ Hslice Hi
                            (@slices_nth p sample 0 i c Hi)).
  - destruct (sequential_results_answers p (Z.to_nat n) [] w)
      as [ts0 [w0 [Hr [Hl0 Hmap]]]].
    rewrite Hr in Hg. injection Hg as Hg _. cbn [app] in Hg. subst ts0.
    apply (@map_samples_get p _ EmptyString s i c _ (Hmap k s Hk) Hi).
    pose proof (@get_lt p i c Hi) as Hip.
    rewrite nth_error_firstn.
    destruct (Nat.ltb_spec i (String.length p)) as [_|]; [|lia].
    rewrite nth_error_skipn. apply nth_error_nth'.
    rewrite answers_length, length_concat_repeat, widths_length.
    assert (Hkn : k < Z.to_nat n)
      by (rewrite <- Hl; apply nth_error_Some; now rewrite Hk).
    nia.
Qed.

End Answers.

(** C2.  The mapper turns a non-empty bit sample into the character
    [alphabet[int(bits, 2) mod size]] of the class's alphabet (size 10 over
    the digits, 26 over the lowercase letters) and appends it.  A valid call
    asks the provider for the widths [requests] and nothing else; with a
    provider that answers each request with a sample of the requested
    width, it returns one string per shot, each as long as the pattern, and
    in string number [k] the character at position [i] is
    [alphabet[int(bits, 2) mod size]] for the bit sample [bits] of that
    position: in sequential mode the provider's answer to the position's
    own request, in batch mode the part of the string's combined sample that
    starts at the position's offset.  Hence every character of every
    generated string belongs to the alphabet of its position's class.  With
    the samples 0000 then 00001 for the pattern DL, one sequential shot
    generates exactly the string 0b. *)
Theorem C2_symbols_from_alphabet (A : Pattern.arithmetic)
        (P : Provider) (p : string) (n : Z) (par : bool) (w : world P) :
  honours_width P -> valid_pattern p -> (1 <= n)%Z ->
  let o := Pattern.generate_quantum_alphanumeric_string
             A P (PyStr p) (PyInt n) (PyBool par) w in
  let strings := strings_of (fst (returned o)) in
  let samples := answers P (requests p n par) (prov w) in
  (forall is_digit bits acc,
      bits <> [] ->
      exists c,
        String.get (Z.to_nat (bits_value bits mod modulus is_digit))
                   (alphabet is_digit) = Some c
        /\ append_symbol is_digit bits acc = inr (acc ++ String c EmptyString)%string)
  /\ drawn (after o) = drawn w ++ requests p n par
  /\ Forall2 (fun (bits : bitstring) width => List.length bits = width)
             samples (requests p n par)
  /\ List.length strings = Z.to_nat n
  /\ (forall k s,
         nth_error strings k = Some s ->
         String.length s = String.length p
         /\ forall i c,
              String.get i p = Some c ->
              exists x,
                String.get i s = Some x
                /\ mapped (Pattern.is_D c)
                          (position_sample p (par && (1 <? n)%Z) samples k i c)
                   = Some x
                /\ in_string x (alphabet (Pattern.is_D c)))
  /\ (forall s i c x,
         In s strings ->
         String.get i p = Some c -> String.get i s = Some x ->
         in_string x (alphabet (Pattern.is_D c)))
  /\ (let script := [bits_of_string "0000"; bits_of_string "00001"] in
      Pattern.generate_results stub "DL" 1 false (fresh stub script)
      = (inr ["0b"%string], @Build_world stub [] [4; 5])
      /\ fst (returned (Pattern.generate_quantum_alphanumeric_string
                          A stub (PyStr "DL") (PyInt 1) (PyBool false)
                          (fresh stub script)))
         = PyStr "0b").
Proof.
  intros HP Hv Hn. cbv zeta.
  destruct (@generate_results_ok P HP p n par w) as [ts [w' [Hr [Hl [Hc Hw]]]]].
  destruct (@result_value_strings (PyInt n) n ts eq_refl) as [v [Hres Hstr]];
    [lia | exact Hl |].
  assert (Hval : Pattern.validate (PyStr p) (PyInt n) (PyBool par)
                 = inr (p, n, par))
    by (apply validate_ok; [exact Hv | reflexivity | lia]).
  rewrite (@generate_of_results A P _ _ _ w w' p n par ts v Hval Hr Hres).
  cbn [stdout returned after fst]. rewrite Hstr.
  rewrite Forall_forall in Hc.
  split; [|split; [|split; [|split; [|split; [|split]]]]].
  - intros is_digit bits acc Hne. exact (append_symbol_formula is_digit acc Hne).
  - exact Hw.
  - apply (answers_widths HP).
  - exact Hl.
  - intros k s Hk.
    pose proof (Hc s (nth_error_In _ _ Hk)) as Hcs.
    split; [exact (conforms_length p s Hcs)|].
    intros i c Hi.
    destruct (@get_some s i) as [x Hx].
    { rewrite (conforms_length p s Hcs). exact (get_lt p i Hi). }
    exists x. split; [exact Hx|]. split.
    + rewrite <- Hx. symmetry.
      exact (@generate_results_positions P HP p n par w w' ts Hr Hl k s i c Hk Hi).
    + exact (conforms_get p s i Hcs Hi Hx).
  - intros s i c x Hin Hi Hx. exact (conforms_get p s i (Hc s Hin) Hi Hx).
  - assert (Hex : Pattern.generate_results stub "DL" 1 false
                    (fresh stub [bits_of_string "0000"; bits_of_string "00001"])
                  = (inr ["0b"%string], @Build_world stub [] [4; 5]))
      by reflexivity.
    split; [exact Hex|].
    rewrite (@generate_of_results A stub (PyStr "DL") (PyInt 1) (PyBool false)
               _ _ "DL" 1 false ["0b"%string] (PyStr "0b") eq_refl Hex eq_refl).
    reflexivity.
Qed.

Lemma C2_witness :
  let o := Pattern.generate_quantum_alphanumeric_string
             reals (streaming Nat.odd) (PyStr "DL") (PyInt 2) (PyBool true)
             (fresh (streaming Nat.odd) 0) in
  let samples := answers (streaming Nat.odd) (requests "DL" 2 true) 0 in
  samples = [bits_of_string "010101010"; bits_of_string "101010101"]
  /\ List.length (strings_of (fst (returned o))) = 2
  /\ (forall k s,
         nth_error (strings_of (fst (returned o))) k = Some s ->
         String.length s = 2
         /\ forall i c,
              String.get i "DL" = Some c ->
              exists x,
                String.get i s = Some x
                /\ mapped (Pattern.is_D c) (position_sample "DL" true samples k i c)
                   = Some x
                /\ in_string x (alphabet (Pattern.is_D c)))
  /\ fst (returned (Pattern.generate_quantum_alphanumeric_string
                      reals stub (PyStr "DL") (PyInt 1) (PyBool false)
                      (fresh stub [bits_of_string "0000"; bits_of_string "00001"])))
     = PyStr "0b".
Proof.
  destruct (@C2_symbols_from_alphabet reals (streaming Nat.odd) "DL" 2 true
                                      (fresh (streaming Nat.odd) 0))
    as [_ [_ [_ [Hlen [Hpos [_ [_ Hex]]]]]]].
  - apply streaming_honours_width.
  - split; [discriminate | reflexivity].
  - lia.
  - split; [reflexivity|]. split; [exact Hlen|]. split; [exact Hpos | exact Hex].
Defined.

(** * Samples that are too short for the pattern *)

(** A sample that is too short is reported at the first position it cannot
    fill: the position whose slice starts within the sample, or at its end,
    and would end beyond it. *)
Lemma slice_pattern_first_short (pattern : string) (sample : bitstring) :
  forall bit_index acc,
    bit_index <= List.length sample ->
    List.length sample < bit_index + Pattern.total_qubits pattern ->
    exists i c,
      String.get i pattern = Some c
      /\ bit_index + offset pattern i <= List.length sample
         < bit_index + offset pattern i + Pattern.qubits_for c
      /\ Pattern.slice_pattern pattern sample bit_index acc
         = inl (BitLengthMismatch
                  (Pattern.qubits_for c)
                  (List.length sample - (bit_index + offset pattern i))
                  (bit_index + offset pattern i)).
Proof.
  induction pattern as [|c r IH]; intros bi acc Hbi Hlt; simpl in *; [lia|].
  destruct (Nat.eqb_spec (List.length (slice sample bi (bi + Pattern.qubits_for c)))
                         (Pattern.qubits_for c)) as [Heq|Hne]; simpl negb; cbv iota.
  - rewrite slice_length in Heq.
    destruct (@append_symbol_ok (Pattern.is_D c)
                (slice sample bi (bi + Pattern.qubits_for c)) acc) as [x [_ Ha]].
    { apply length_pos_nonempty. rewrite slice_length, Heq. apply qubits_for_pos. }
    rewrite Ha. simpl ebind.
    destruct (IH (bi + Pattern.qubits_for c) (acc ++ String x EmptyString)%string)
      as [i [c' [Hi [Hrange He]]]]; [lia | lia |].
    exists (S i), c'. cbn [String.get offset]. rewrite He, !Nat.add_assoc.
    split; [exact Hi|]. split; [lia | reflexivity].
  - rewrite slice_length in Hne.
    exists 0, c. cbn [String.get offset]. rewrite slice_length, !Nat.add_0_r.
    split; [reflexivity|]. split; [lia|].
    do 2 f_equal. lia.
Qed.

(** The batch fails at its first sample that is too short. *)
Lemma parallel_results_first_short (pattern : string) (sample : bitstring)
      (rest : list bitstring) (good : list bitstring) :
  forall results,
    Forall (fun s => Pattern.total_qubits pattern <= List.length s) good ->
    List.length sample < Pattern.total_qubits pattern ->
    exists i c,
      String.get i pattern = Some c
      /\ offset pattern i <= List.length sample
         < offset pattern i + Pattern.qubits_for c
      /\ Pattern.parallel_results (good ++ sample :: rest) pattern results
         = inl (BitLengthMismatch (Pattern.qubits_for c)
                                  (List.length sample - offset pattern i)
                                  (offset pattern i)).
Proof.
  induction good as [|g good IH]; intros results Hgood Hshort.
  - destruct (@slice_pattern_first_short pattern sample 0 EmptyString)
      as [i [c [Hi [Hrange He]]]]; [lia | simpl; lia |].
    exists i, c. simpl in *. rewrite He. now repeat split.
  - inversion Hgood as [|? ? Hg Hrest]; subst.
    destruct (slice_pattern_ok pattern g EmptyString Hg) as [t [Ht _]].
    destruct (IH (results ++ [EmptyString ++ t]%string) Hrest Hshort)
      as [i [c [Hi [Hrange He]]]].
    exists i, c. cbn [app Pattern.parallel_results]. rewrite Ht. simpl ebind.
    now repeat split.
Qed.

(** C5, amended.  In batch mode (parallel sampling of more than one shot)
    the samples are mapped in order, and the first one that is shorter than
    the pattern needs ends the call with a bit-length mismatch: it names the
    width of the first position the sample cannot fill (the position whose
    bits would start within the sample, or at its end, and end beyond it),
    the smaller number of bits that are left for that position, and the bit
    index at which the position starts; the error is printed and
    [(None, 0.0)] returned.  So a 3-bit sample for a Letter position is
    reported as expected 5, actual 3.  Sequential sampling (parallel off, or
    a single shot) makes no width check: with no provider does it report a
    bit-length mismatch, and fed from a script of non-empty samples of any
    widths it succeeds and maps each sample to a character. *)
Theorem C5_batch_reports_short_sample (A : Pattern.arithmetic)
        (P : Provider) (p : string) (n : Z) (w w' : world P)
        (good : list bitstring) (sample : bitstring) (rest : list bitstring) :
  valid_pattern p -> (1 < n)%Z ->
  Pattern.sample_states P (Z.to_nat n) (Pattern.total_qubits p) w
  = (inr (good ++ sample :: rest), w') ->
  Forall (fun s => Pattern.total_qubits p <= List.length s) good ->
  List.length sample < Pattern.total_qubits p ->
  let o := Pattern.generate_quantum_alphanumeric_string
             A P (PyStr p) (PyInt n) (PyBool true) w in
  (exists i c,
      String.get i p = Some c
      /\ offset p i <= List.length sample < offset p i + Pattern.qubits_for c
      /\ stdout o = [BitLengthMismatch (Pattern.qubits_for c)
                                       (List.length sample - offset p i)
                                       (offset p i)])
  /\ returned o = (PyNone, Pattern.zero A)
  /\ after o = w'
  /\ stdout (Pattern.generate_quantum_alphanumeric_string
               A stub (PyStr "L") (PyInt 2) (PyBool true)
               (fresh stub [bits_of_string "101"; bits_of_string "10101"]))
     = [BitLengthMismatch 5 3 0]
  /\ (forall (Q : Provider) (m : Z) (par : bool) (v : world Q)
             (expected actual index : nat),
         (1 <= m)%Z -> par && (1 <? m)%Z = false ->
         stdout (Pattern.generate_quantum_alphanumeric_string
                   A Q (PyStr p) (PyInt m) (PyBool par) v)
         <> [BitLengthMismatch expected actual index])
  /\ (forall (m : Z) (par : bool) (script : list bitstring),
         (1 <= m)%Z -> par && (1 <? m)%Z = false ->
         Z.to_nat m * String.length p <= List.length script ->
         Forall (fun bits : bitstring => bits <> []) script ->
         let s := Pattern.generate_quantum_alphanumeric_string
                    A stub (PyStr p) (PyInt m) (PyBool par) (fresh stub script) in
         stdout s = []
         /\ map inr (strings_of (fst (returned s)))
            = strings_from_script p (Z.to_nat m) script).
Proof.
  intros Hv Hn Hs Hgood Hshort. cbv zeta.
  destruct (@parallel_results_first_short p sample rest good [] Hgood Hshort)
    as [i [c [Hi [Hrange Hp]]]].
  assert (Hr : Pattern.generate_results P p n true w
               = (inl (BitLengthMismatch (Pattern.qubits_for c)
                                         (List.length sample - offset p i)
                                         (offset p i)), w')).
  { unfold Pattern.generate_results.
    replace (true && (1 <? n)%Z) with true
      by (symmetry; apply andb_true_intro; split; [reflexivity | now apply Z.ltb_lt]).
    now rewrite (bind_ok Hs), Hp. }
  assert (Hval : forall m par, (1 <= m)%Z ->
                   Pattern.validate (PyStr p) (PyInt m) (PyBool par)
                   = inr (p, m, par))
    by (intros m par Hm; apply validate_ok; [exact Hv | reflexivity | lia]).
  rewrite (@generate_of_failure A P _ _ _ w w' p n true _ (Hval n true ltac:(lia)) Hr).
  cbn [stdout returned after].
  split; [exists i, c; now repeat split|].
  split; [reflexivity|]. split; [reflexivity|]. split; [|split].
  - rewrite (@generate_of_failure A stub (PyStr "L") (PyInt 2) (PyBool true)
               (fresh stub [bits_of_string "101"; bits_of_string "10101"])
               (@Build_world stub [] [5; 5]) "L" 2 true
               (BitLengthMismatch 5 3 0) eq_refl eq_refl).
    reflexivity.
  - intros Q m par v expected actual index Hm Hseq Hout.
    destruct (@generate_any A Q p (PyInt m) m par v Hv eq_refl ltac:(lia))
      as [l [_ [[Hok _]|[_ [[Hf _]|[[Hf _]|[x [a [j [_ [_ [Hb _]]]]]]]]]]]].
    + rewrite Hok in Hout. discriminate Hout.
    + rewrite Hf in Hout. discriminate Hout.
    + rewrite Hf in Hout. discriminate Hout.
    + rewrite Hseq in Hb. discriminate Hb.
  - intros m par script Hm Hseq Hlen Hall.
    destruct (@stub_sequential_results p (Z.to_nat m) [] script [] Hlen Hall)
      as [ts [Ht Hres]].
    cbn [app] in Hres.
    assert (Hl : List.length ts = Z.to_nat m).
    { assert (H : forall k s, List.length (strings_from_script p k s) = k)
        by (induction k; intros; simpl; auto).
      rewrite <- (H (Z.to_nat m) script), Ht. now rewrite length_map. }
    destruct (@result_value_strings (PyInt m) m ts eq_refl) as [v [Hrv Hstr]];
      [lia | exact Hl |].
    assert (Hg : Pattern.generate_results stub p m par (fresh stub script)
                 = (inr ts, @Build_world stub
                              (skipn (Z.to_nat m * String.length p) script)
                              ([] ++ List.concat (repeat (widths p) (Z.to_nat m)))))
      by (unfold Pattern.generate_results, fresh; rewrite Hseq; exact Hres).
    rewrite (@generate_of_results A stub _ _ _ _ _ p m par ts v (Hval m par Hm) Hg Hrv).
    cbn [stdout returned fst]. rewrite Hstr, Ht. now split.
Qed.

Lemma C5_witness :
  let o := Pattern.generate_quantum_alphanumeric_string
             reals stub (PyStr "DL") (PyInt 2) (PyBool true)
             (fresh stub [bits_of_string "000000001"; bits_of_string "0000101"]) in
  (exists i c,
      String.get i "DL" = Some c
      /\ offset "DL" i <= 7 < offset "DL" i + Pattern.qubits_for c
      /\ stdout o = [BitLengthMismatch (Pattern.qubits_for c) (7 - offset "DL" i)
                                       (offset "DL" i)])
  /\ stdout o = [BitLengthMismatch 5 3 4]
  /\ returned o = (PyNone, 0%R).
Proof.
  destruct (@C5_batch_reports_short_sample
              reals stub "DL" 2
              (fresh stub [bits_of_string "000000001"; bits_of_string "0000101"])
              (@Build_world stub [] [9; 9])
              [bits_of_string "000000001"] (bits_of_string "0000101") [])
    as [H1 [H2 _]].
  - split; [discriminate | reflexivity].
  - lia.
  - reflexivity.
  - repeat constructor.
  - simpl. lia.
  - split; [exact H1|]. split; [|exact H2].
    unfold Pattern.generate_quantum_alphanumeric_string. reflexivity.
Defined.

(** * The convenience form as a pattern *)

(** X7.  The convenience form is the pattern form on the alternating
    pattern DLDL... of the requested length, in sequential mode: for a
    positive even length and a positive integer shot count, and whatever the
    provider answers, the bodies of the two functions either raise the same
    exception or produce the same string or list (to which the pattern form
    adds the entropy), having made the same requests and left the provider
    in the same state; so the two calls return the same value, [None] after
    an exception.  Each function prints the exception it caught under a
    message of its own, which is not compared here. *)
Theorem X7_convenience_form_is_the_alternating_pattern
        (A : Pattern.arithmetic) (P : Provider) (length shots : pyval)
        (n k : Z) (w : world P) :
  as_int length = Some n -> (0 < n)%Z -> (n mod 2 = 0)%Z ->
  as_int shots = Some k -> (0 < k)%Z ->
  let pattern := PyStr (alternating_pattern 0 (Z.to_nat n)) in
  let a := Alternate.generate_quantum_alphanumeric P length shots w in
  let o := Pattern.generate_quantum_alphanumeric_string
             A P pattern shots (PyBool false) w in
  (exists w',
      (exists e,
          Alternate.body P length shots w = (inl e, w')
          /\ Pattern.body A P pattern shots (PyBool false) w = (inl e, w'))
      \/ (exists v entropy,
             Alternate.body P length shots w = (inr v, w')
             /\ Pattern.body A P pattern shots (PyBool false) w
                = (inr (v, entropy), w')))
  /\ returned a = fst (returned o)
  /\ after a = after o.
Proof.
  intros Hl Hn He Hs Hk. cbv zeta.
  assert (Hv : valid_pattern (alternating_pattern 0 (Z.to_nat n)))
    by (apply alternating_pattern_valid; lia).
  unfold Alternate.generate_quantum_alphanumeric, Alternate.body,
    Pattern.generate_quantum_alphanumeric_string, Pattern.body.
  rewrite (@alt_validate_ok length n Hl Hn He), bind_lift_ok.
  rewrite (@validate_ok _ shots k false Hv Hs Hk), bind_lift_ok.
  unfold Alternate.range. rewrite Hs, bind_lift_ok.
  unfold Pattern.generate_results. cbn [andb]. unfold bind.
  rewrite shots_loop_is_sequential.
  destruct (Pattern.sequential_results P (Z.to_nat k) _ [] w) as [[e|ts] w'].
  - split; [|now split]. exists w'. left. exists e. now split.
  - unfold lift, Alternate.result_value, Pattern.result_value, ret.
    destruct (eq_one shots); [destruct ts as [|t ts]|].
    + split; [|now split]. exists w'. left. exists IndexError. now split.
    + split; [|now split]. exists w'. right. eexists _, _. now split.
    + split; [|now split]. exists w'. right. eexists _, _. now split.
Qed.

Lemma X7_witness :
  let script := [bits_of_string "0111"; bits_of_string "00010"] in
  let a := Alternate.generate_quantum_alphanumeric
             stub (PyInt 2) (PyInt 1) (fresh stub script) in
  let o := Pattern.generate_quantum_alphanumeric_string
             reals stub (PyStr (alternating_pattern 0 (Z.to_nat 2))) (PyInt 1)
             (PyBool false) (fresh stub script) in
  returned a = PyStr "7c" /\ returned a = fst (returned o) /\ after a = after o.
Proof.
  destruct (@X7_convenience_form_is_the_alternating_pattern
              reals stub (PyInt 2) (PyInt 1) 2 1
              (fresh stub [bits_of_string "0111"; bits_of_string "00010"]))
    as [_ [Hret Hafter]]; try solve [reflexivity | lia].
  split; [reflexivity|]. split; [exact Hret | exact Hafter].
Defined.
